(** * HR search engine: ranking pipeline of [utils/hr_search_engine.py]

    A shallow embedding of [EmployeeSearchEngine] (loading, hard filters,
    composite score, sort and cap) together with the properties stated for
    it.

    Modelling conventions.
    - Python [str] is [string] (a byte string: UTF-8); [set[str]] is
      [gset string]; [int] is [Z]; [Sequence[str] | None] is
      [option (list string)].
    - Python [float] is an exact rational [Qc]: rounding of the binary64
      operations is outside this model, the arithmetic expressions keep the
      shape they have in the source.
    - A raised exception is the [Raise] case of [Result].
    - The sentence encoder, [math.exp] and the FAISS inner-product index are
      libraries outside the repository: they are variables of the section
      that holds the engine.

    Two things depend on what these conventions leave out: the order in
    which [search] returns candidates whose scores are close or equal (the
    sort compares binary64 numbers), and the independence of the result
    from the order in which the interpreter iterates a set. For them the
    module [Runtime] holds the loop, the sort and [search] once more, with
    binary64 floats and an explicit iteration order. *)

From Stdlib Require Import Ascii QArith Qcanon Floats Lqa.
From stdpp Require Import gmap strings list numbers pretty sorting.

Local Open Scope Qc_scope.
Local Open Scope Z_scope.

(** ** Exceptions *)

Inductive PyExc : Type :=
  | ValueError (missing : gset string)   (* "Missing expected columns: {missing}" *)
  | IndexError                           (* positional indexer out of bounds *)
  | ZeroDivisionError
  | OverflowError                        (* int too large to convert to float *)
  | OSError.                             (* a file cannot be written *)

Inductive Result (A : Type) : Type :=
  | Ok (a : A)
  | Raise (e : PyExc).
Arguments Ok {A} a.
Arguments Raise {A} e.

Global Instance Result_ret : MRet Result := λ A a, Ok a.
Global Instance Result_bind : MBind Result := λ A B f m,
  match m with
  | Ok a => f a
  | Raise e => Raise e
  end.

(** ** Python built-ins used by the engine *)

Module Py.

(** [str.isspace] on the ASCII range: TAB, LF, VT, FF, CR, FS, GS, RS, US
    and the space. *)
Definition isspace (c : ascii) : bool :=
  let n := nat_of_ascii c in
  ((9 <=? n)%nat && (n <=? 13)%nat) || ((28 <=? n)%nat && (n <=? 32)%nat).

Fixpoint lstrip (s : string) : string :=
  match s with
  | String c s' => if isspace c then lstrip s' else s
  | EmptyString => EmptyString
  end.

(** [s.rstrip()], by dropping the trailing blanks on the way back. *)
Fixpoint rstrip (s : string) : string :=
  match s with
  | String c s' =>
      match rstrip s' with
      | EmptyString => if isspace c then EmptyString else String c EmptyString
      | r => String c r
      end
  | EmptyString => EmptyString
  end.

Definition strip (s : string) : string := rstrip (lstrip s).

Definition lower_char (c : ascii) : ascii :=
  let n := nat_of_ascii c in
  if ((65 <=? n)%nat && (n <=? 90)%nat) then ascii_of_nat (n + 32) else c.

(** [s.lower()]; letters outside ASCII are left as they are. *)
Fixpoint lower (s : string) : string :=
  match s with
  | String c s' => String (lower_char c) (lower s')
  | EmptyString => EmptyString
  end.

(** [s.isascii()]: every character is below 128. On such text [strip] and
    [lower] above are [str.strip] and [str.lower]; on other text Python
    also takes Unicode blanks away and lowercases Unicode letters. *)
Fixpoint isascii (s : string) : bool :=
  match s with
  | String c s' => (nat_of_ascii c <? 128)%nat && isascii s'
  | EmptyString => true
  end.

(** [s.split(sep)] for a one-character separator. *)
Fixpoint split (sep : ascii) (s : string) : list string :=
  match s with
  | EmptyString => [EmptyString]
  | String c s' =>
      if Ascii.eqb c sep then EmptyString :: split sep s'
      else match split sep s' with
           | w :: ws => String c w :: ws
           | [] => [String c EmptyString]
           end
  end.

(** Truth value of a string: non-empty. *)
Definition truthy (s : string) : bool :=
  match s with EmptyString => false | _ => true end.

(** [a / b] on two [int]s. *)
Definition truediv (a b : Z) : Result Qc :=
  if decide (b = 0) then Raise ZeroDivisionError
  else Ok (Qc_of_Z a / Qc_of_Z b)%Qc.

(** [l[:k]]: a negative [k] counts from the end. *)
Definition slice_to {A} (l : list A) (k : Z) : list A :=
  if decide (0 ≤ k) then take (Z.to_nat k) l
  else take (Z.to_nat (Z.of_nat (length l) + k)) l.

(** The stable sort behind [sorted] and [list.sort]: [before x y] says
    that [x] has to come strictly before [y]; elements that are not
    ordered either way keep the order they had. *)
Section StableSort.
Context {A : Type} (before : A → A → bool).

Fixpoint insert (x : A) (l : list A) : list A :=
  match l with
  | [] => [x]
  | y :: l' => if before y x then y :: insert x l' else x :: l
  end.

Definition stable_sort (l : list A) : list A := foldr insert [] l.
End StableSort.

(** [sorted(s)] for a set of strings. *)
Definition sorted (s : gset string) : list string :=
  stable_sort String.ltb (elements s).

(** Rounding of a non-negative rational [n / d] to the nearest integer,
    halves to the even one. *)
Definition round_half_even (n : Z) (d : positive) : Z :=
  let fl := n / Z.pos d in
  let r := n mod Z.pos d in
  if decide (2 * r < Z.pos d) then fl
  else if decide (Z.pos d < 2 * r) then fl + 1
  else if Z.even fl then fl else fl + 1.

Definition two_digits (n : Z) : string :=
  if decide (n < 10) then "0" +:+ pretty n else pretty n.

(** [f"{x:.2f}"]. *)
Definition fmt2 (x : Qc) : string :=
  let h := (x * Qc_of_Z 100)%Qc in
  let m := round_half_even (Z.abs (Qnum h)) (Qden h) in
  (if decide (Qnum h < 0) then "-" else "")
    +:+ pretty (m / 100) +:+ "." +:+ two_digits (m mod 100).

End Py.

(** ** Configuration *)

Definition ROLE_WEIGHT : Qc := Q2Qc 0.5%Q.
Definition SKILL_WEIGHT : Qc := Q2Qc 0.3%Q.
Definition AGE_WEIGHT : Qc := Q2Qc 0.2%Q.
Definition TOP_K_RAW : nat := 20.

(** ** Data model *)

(** A row of the sheet as [pd.read_excel] hands it over, typed by column:
    names and role texts are strings, ages are integers (on them
    [int(...)] is the identity), a blank skills cell is [None] (NaN). A
    sheet with a blank or non-numeric age cell, on which [int(...)] raises
    in [search], is not a value of this type. *)
Record RawRow : Type := {
  Employee_Name : string;
  Employee_Skills : option string;
  Employee_Age : Z;
  Employee_Roles_Responsibilities : string;
}.

(** The parsed sheet: its header and its rows. The cells of a row under a
    column that the header lacks are never read: loading fails first. *)
Record Sheet : Type := {
  columns : list string;
  records : list RawRow;
}.

(** A row of the prepared frame: the sheet's row and the derived
    ["skill_set"] column. *)
Record Row : Type := {
  raw : RawRow;
  skill_set : gset string;
}.

(** The dictionary [search] returns for a candidate. *)
Record Candidate : Type := {
  name : string;
  age : Z;
  skills : list string;
  roles : string;
  score : Qc;
  justification : string;
}.

(** ** Scoring helpers *)

Section Scoring.

(** [math.exp]. *)
Variable math_exp : Qc → Qc.

(** 1.0 inside the range; otherwise a smooth exponential decay. *)
Definition _age_score (age min_age max_age : Z) : Qc :=
  if decide (min_age ≤ age ≤ max_age) then 1%Qc
  else
    let mid := (Qc_of_Z (min_age + max_age) / Q2Qc 2.0%Q)%Qc in
    let d := (Qc_of_Z age - mid)%Qc in
    let abs_d := if decide (d < 0)%Qc then (- d)%Qc else d in
    math_exp (- abs_d / Q2Qc 10.0%Q)%Qc.

Definition _skills_match_ratio
    (candidate_skills required_keywords : gset string) : Result Qc :=
  if decide (required_keywords = ∅) then Ok 1%Qc
  else if decide (¬ required_keywords ⊆ candidate_skills) then Ok 0%Qc
  else
    Py.truediv (Z.of_nat (size required_keywords))
               (Z.max (Z.of_nat (size candidate_skills)) 1).

End Scoring.

(** ** Loading *)

Definition required_cols : gset string :=
  {[ "Employee Name"; "Employee Skills"; "Employee Age";
     "Employee Roles & Responsibilities" ]}.

(** [{k.strip().lower() for k in ks if k.strip()}]. *)
Definition normalise_keywords (ks : list string) : gset string :=
  list_to_set
    (map (λ k, Py.lower (Py.strip k))
         (filter (λ k, Py.truthy (Py.strip k) = true) ks)).

Definition derive_skill_set (cell : option string) : gset string :=
  normalise_keywords (Py.split "," (default "" cell)).

Definition _load_and_prepare (df : Sheet) : Result (list Row) :=
  let missing := required_cols ∖ list_to_set (columns df) in
  if decide (missing ≠ ∅) then Raise (ValueError missing)
  else
    Ok (map (λ r, {| raw := r; skill_set := derive_skill_set (Employee_Skills r) |})
            (records df)).

(** ** The engine *)

Section Engine.

(** The vectors of the sentence encoder. *)
Variable Embedding : Type.

(** [SentenceTransformer.encode] with [normalize_embeddings=True], for one
    text. *)
Variable model_encode : string → Embedding.

(** [faiss.IndexFlatIP]: the search of an index that holds the vectors
    [stored], for one query vector and [k] neighbours; the result is the
    pair of [D[0]] (inner products) and [I[0]] (row positions, -1 where
    the index has run out of vectors). *)
Variable index_search : list Embedding → Embedding → nat → list Qc * list Z.

Variable math_exp : Qc → Qc.

Record EmployeeSearchEngine : Type := {
  _df : list Row;
  _embeddings : list Embedding;
}.

(** [__init__], after [pd.read_excel]. The encoder turns an empty list of
    texts into an array with one axis, on which [shape[1]] raises
    [IndexError]: a sheet without rows builds no engine. Failures that come
    from the environment (the model cannot be loaded, the encoder or FAISS
    fail) are outside the model. *)
Definition init (sheet : Sheet) : Result EmployeeSearchEngine :=
  df ← _load_and_prepare sheet;
  let embeddings :=
    map (λ r, model_encode (Employee_Roles_Responsibilities (raw r))) df in
  match embeddings with
  | [] => Raise IndexError
  | _ :: _ => mret {| _df := df; _embeddings := embeddings |}
  end.

(** [df.iloc[idx]]: a negative position counts from the end. *)
Definition iloc (df : list Row) (idx : Z) : Result Row :=
  let n := Z.of_nat (length df) in
  let pos := if decide (idx < 0) then n + idx else idx in
  if decide (0 ≤ pos < n) then
    match df !! Z.to_nat pos with
    | Some row => Ok row
    | None => Raise IndexError
    end
  else Raise IndexError.

(** The dictionary appended for a row that passed both filters. *)
Definition make_candidate (required_keywords : gset string)
    (row : Row) (sim age_s final_score : Qc) : Candidate :=
  {| name := Employee_Name (raw row);
     age := Employee_Age (raw row);
     skills := Py.sorted (skill_set row);
     roles := Employee_Roles_Responsibilities (raw row);
     score := final_score;
     justification :=
       ("Role sim " +:+ Py.fmt2 sim +:+ "; ")
       +:+ (if decide (required_keywords ≠ ∅)
            then "all required skills present; " else "")
       +:+ ("age score " +:+ Py.fmt2 age_s) |}.

(** One turn of the loop over [zip(idxs, sims)]: [candidates] is the list
    built so far. *)
Definition visit (df : list Row) (required_keywords : gset string)
    (age_min age_max : Z) (candidates : list Candidate) (p : Z * Qc)
    : Result (list Candidate) :=
  let '(idx, sim) := p in
  if decide (idx = -1) then Ok candidates
  else
    row ← iloc df idx;
    (* Hard filter: skills (ALL keywords must be present) *)
    if decide (required_keywords ≠ ∅ ∧ ¬ required_keywords ⊆ skill_set row)
    then Ok candidates
    else
      skill_ratio ← _skills_match_ratio (skill_set row) required_keywords;
      let age_s := _age_score math_exp (Employee_Age (raw row)) age_min age_max in
      (* skip candidates that fall outside the requested age range *)
      if decide (¬ (age_min ≤ Employee_Age (raw row) ≤ age_max))
      then Ok candidates
      else
        let final_score :=
          (ROLE_WEIGHT * sim + SKILL_WEIGHT * skill_ratio + AGE_WEIGHT * age_s)%Qc in
        Ok (candidates ++
              [make_candidate required_keywords row sim age_s final_score]).

Fixpoint loop (df : list Row) (required_keywords : gset string)
    (age_min age_max : Z) (candidates : list Candidate) (pool : list (Z * Qc))
    : Result (list Candidate) :=
  match pool with
  | [] => Ok candidates
  | p :: pool' =>
      candidates' ← visit df required_keywords age_min age_max candidates p;
      loop df required_keywords age_min age_max candidates' pool'
  end.

(** [candidates.sort(key=lambda c: c["score"], reverse=True)]: a candidate
    goes strictly before another one when its score is greater, and
    candidates of equal score keep their order. The scores compared here
    are exact; [Runtime.sort_by_score_desc] below compares the binary64
    numbers. *)
Definition sort_by_score_desc (candidates : list Candidate) : list Candidate :=
  Py.stable_sort (λ c d, bool_decide (score d < score c)%Qc) candidates.

(** Return top-k candidates best matching [query]. *)
Definition search (self : EmployeeSearchEngine) (query : string)
    (skills : option (list string)) (age_min age_max top_k : Z)
    (return_json : bool) : Result (list Candidate) :=
  let required_keywords := normalise_keywords (default [] skills) in
  let query_vec := model_encode query in
  let '(D0, I0) := index_search (_embeddings self) query_vec TOP_K_RAW in
  let idxs := I0 in
  let sims := D0 in
  candidates ← loop (_df self) required_keywords age_min age_max [] (zip idxs sims);
  mret (Py.slice_to (sort_by_score_desc candidates) top_k).

End Engine.

Arguments _df {Embedding} _.
Arguments _embeddings {Embedding} _.
Arguments init {Embedding} model_encode sheet.
Arguments search {Embedding} model_encode index_search math_exp self query
  skills age_min age_max top_k return_json.

(** ** Notions used to state the properties *)

Section Notions.

Context {Embedding : Type}.
Variable model_encode : string → Embedding.
Variable index_search : list Embedding → Embedding → nat → list Qc * list Z.

(** The pairs the loop of [search] runs over: [zip(idxs, sims)]. *)
Definition raw_pool (self : EmployeeSearchEngine Embedding) (query : string)
    : list (Z * Qc) :=
  let DI := index_search (_embeddings self) (model_encode query) TOP_K_RAW in
  zip DI.2 DI.1.

(** What FAISS promises for a search of [k] neighbours in an index of [n]
    vectors: [k] distances, [k] labels, each label a position below [n] or
    the filler -1. *)
Definition pool_well_formed (n k : nat) (DI : list Qc * list Z) : Prop :=
  length DI.1 = k ∧ length DI.2 = k ∧ Forall (λ i, -1 ≤ i < Z.of_nat n) DI.2.

(** [survives df req age_min age_max p c]: the pool entry [p] passes both
    hard filters and [c] is the dictionary built for it. *)
Definition survives (df : list Row) (required_keywords : gset string)
    (age_min age_max : Z) (p : Z * Qc) (c : Candidate) : Prop :=
  ∃ row ratio,
    p.1 ≠ -1 ∧ iloc df p.1 = Ok row ∧
    (required_keywords = ∅ ∨ required_keywords ⊆ skill_set row) ∧
    age_min ≤ Employee_Age (raw row) ≤ age_max ∧
    _skills_match_ratio (skill_set row) required_keywords = Ok ratio ∧
    c = make_candidate required_keywords row p.2 1
          (ROLE_WEIGHT * p.2 + SKILL_WEIGHT * ratio + AGE_WEIGHT * 1)%Qc.

(** [selected df req age_min age_max pool new]: [new] lists, in the order
    of [pool], the dictionaries of the entries of [pool] that survive. *)
Inductive selected (df : list Row) (required_keywords : gset string)
    (age_min age_max : Z) : list (Z * Qc) → list Candidate → Prop :=
  | selected_nil : selected df required_keywords age_min age_max [] []
  | selected_skip p pool new :
      (∀ c, ¬ survives df required_keywords age_min age_max p c) →
      selected df required_keywords age_min age_max pool new →
      selected df required_keywords age_min age_max (p :: pool) new
  | selected_keep p c pool new :
      survives df required_keywords age_min age_max p c →
      selected df required_keywords age_min age_max pool new →
      selected df required_keywords age_min age_max (p :: pool) (c :: new).

End Notions.

(** [describes row c]: the candidate [c] shows the data of [row]. *)
Definition describes (row : Row) (c : Candidate) : Prop :=
  name c = Employee_Name (raw row) ∧ age c = Employee_Age (raw row) ∧
  skills c = Py.sorted (skill_set row) ∧
  roles c = Employee_Roles_Responsibilities (raw row).

(** [precedes l a b]: an occurrence of [a] lies before an occurrence of [b]
    in [l]. *)
Inductive precedes {A : Type} : list A → A → A → Prop :=
  | precedes_here x l b : b ∈ l → precedes (x :: l) x b
  | precedes_later x l a b : precedes l a b → precedes (x :: l) a b.


(** ** A small dataset to run the engine on *)

Module Scenario.

Definition inner_product (u v : list Qc) : Qc :=
  foldr Qcplus 0%Qc (zip_with Qcmult u v).

(** The filler distance of an inner-product search: the lowest float32. *)
Definition NO_DISTANCE : Qc := Q2Qc (-340282346638528859811704183484516925440)%Q.

(** A stand-in for [faiss.IndexFlatIP], an exhaustive inner-product search:
    the [k] stored vectors of greatest inner product with the query, by
    descending inner product; the result is filled up to [k] with the
    label -1. Of two vectors with the same inner product the one stored
    later comes first here; the order FAISS gives them is its own affair,
    and no two vectors of the scenario have the same inner product with
    the query. *)
Definition flat_ip_search (stored : list (list Qc)) (q : list Qc) (k : nat)
    : list Qc * list Z :=
  let scored := imap (λ i v, (Z.of_nat i, inner_product v q)) stored in
  let best :=
    take k (Py.stable_sort (λ a b, bool_decide (b.2 < a.2)%Qc) (reverse scored)) in
  let pad := (k - length best)%nat in
  (best.*2 ++ replicate pad NO_DISTANCE, best.*1 ++ replicate pad (-1)).

(** A stand-in for the sentence encoder: for the texts of the scenario,
    vectors of float32 numbers (the encoder's output goes through
    [astype("float32")]) whose length is 1 up to the rounding of float32.
    The coordinates of the second vector are the float32 numbers nearest
    to 0.3, 0.9, 0.3 and 0.1. With the query vector [1; 0; 0; 0] every
    inner product is a single coordinate, exact in float32. *)
Definition toy_encode (text : string) : list Qc :=
  if decide (text = "analytics engineer") then [0; 1; 0; 0]%Qc
  else if decide (text = "backend engineer")
       then [Q2Qc (5033165 # 16777216); Q2Qc (15099494 # 16777216);
             Q2Qc (5033165 # 16777216); Q2Qc (13421773 # 134217728)]
  else [1; 0; 0; 0]%Qc.

(** A stand-in for [math.exp]; the engine never uses its value for a
    candidate it returns. *)
Definition toy_exp (x : Qc) : Qc := (1 / (1 - x))%Qc.

Definition sheet : Sheet :=
  {| columns := ["Employee Name"; "Employee Skills"; "Employee Age";
                 "Employee Roles & Responsibilities"];
     records :=
       [ {| Employee_Name := "Bob"; Employee_Skills := Some "Python";
            Employee_Age := 45;
            Employee_Roles_Responsibilities := "analytics engineer" |};
         {| Employee_Name := "Dana"; Employee_Skills := Some "python, SQL";
            Employee_Age := 30;
            Employee_Roles_Responsibilities := "backend engineer" |};
         {| Employee_Name := "Carol"; Employee_Skills := Some "Java";
            Employee_Age := 60;
            Employee_Roles_Responsibilities := "staff engineer" |} ] |}.

(** The sheet without its age column. *)
Definition sheet_no_age : Sheet :=
  {| columns := ["Employee Name"; "Employee Skills";
                 "Employee Roles & Responsibilities"];
     records := records sheet |}.

Definition engine : EmployeeSearchEngine (list Qc) :=
  match init toy_encode sheet with
  | Ok e => e
  | Raise _ => {| _df := []; _embeddings := [] |}
  end.

(** The query of the scenario: text "staff engineer", one required skill,
    ages 18 to 50, five results. *)
Definition run (return_json : bool) : Result (list Candidate) :=
  search toy_encode flat_ip_search toy_exp engine
    "staff engineer" (Some [" Python "]) 18 50 5 return_json.

End Scenario.

(** ** The engine as the interpreter runs it *)

(** The loop, the sort and [search] once more, with what the definitions
    above abstract from: the numbers are binary64 floats, and a set is
    iterated in an order that the interpreter chooses. *)

Module Runtime.

(** The binary64 number nearest to an integer, halves to even. *)
Definition to_float (n : Z) : float :=
  SF2Prim (binary_normalize prec emax n 0 false).

(** The conversion of an [int] where a [float] is needed: [OverflowError]
    when the nearest binary64 number is not finite. *)
Definition of_int (n : Z) : Result float :=
  if is_infinity (to_float n) then Raise OverflowError else Ok (to_float n).

(** The literals [0.5], [0.3] and [0.2] of the source denote the binary64
    numbers nearest to them. *)
Definition ROLE_WEIGHT : float := 0x1p-1.
Definition SKILL_WEIGHT : float := 0x1.3333333333333p-2.
Definition AGE_WEIGHT : float := 0x1.999999999999ap-3.

(** 1.0 inside the range; otherwise a smooth exponential decay. *)
Definition _age_score (math_exp : float → float) (age min_age max_age : Z)
    : Result float :=
  if decide (min_age ≤ age ≤ max_age) then Ok 1%float
  else
    total ← of_int (min_age + max_age);
    let mid := (total / 2)%float in
    age' ← of_int age;
    Ok (math_exp ((- abs (age' - mid)) / 10)%float).

(** [a / b] on two [int]s, the binary64 number nearest to the quotient: it
    is the quotient of the two conversions as long as these are exact,
    which they are below 2^53, far above the size of a set. *)
Definition truediv (a b : Z) : Result float :=
  if decide (b = 0) then Raise ZeroDivisionError
  else Ok (to_float a / to_float b)%float.

Definition _skills_match_ratio
    (candidate_skills required_keywords : gset string) : Result float :=
  if decide (required_keywords = ∅) then Ok 1%float
  else if decide (¬ required_keywords ⊆ candidate_skills) then Ok 0%float
  else
    truediv (Z.of_nat (size required_keywords))
            (Z.max (Z.of_nat (size candidate_skills)) 1).

(** The rational number that a finite binary64 number stands for. *)
Definition exact_value (s : bool) (m : positive) (e : Z) : Qc :=
  let magnitude :=
    if decide (0 ≤ e) then inject_Z (Z.pos m * 2 ^ e)
    else (Z.pos m # Pos.pow 2 (Z.to_pos (- e)))%Q in
  Q2Qc (if s then (- magnitude)%Q else magnitude).

(** [f"{x:.2f}"]: the exact value, rounded to two decimals. *)
Definition fmt2 (x : float) : string :=
  match Prim2SF x with
  | S754_nan => "nan"
  | S754_infinity s => if s then "-inf" else "inf"
  | S754_zero s => if s then "-0.00" else "0.00"
  | S754_finite s m e => Py.fmt2 (exact_value s m e)
  end.

(** The dictionary [search] returns for a candidate. *)
Record Candidate : Type := {
  name : string;
  age : Z;
  skills : list string;
  roles : string;
  score : float;
  justification : string;
}.

Section Engine.

(** The order in which the interpreter iterates a set of strings; it
    depends on the hash seed of the process. *)
Variable set_order : gset string → list string.

Variable Embedding : Type.
Variable model_encode : string → Embedding.

(** [faiss.IndexFlatIP], as above; the inner products are float32 numbers,
    which [tolist()] hands over as the same binary64 numbers. *)
Variable index_search : list Embedding → Embedding → nat → list float * list Z.

Variable math_exp : float → float.

(** [sorted(s)]: the elements in the order of iteration, sorted. *)
Definition sorted (s : gset string) : list string :=
  Py.stable_sort String.ltb (set_order s).

Definition make_candidate (required_keywords : gset string)
    (row : Row) (sim age_s final_score : float) : Candidate :=
  {| name := Employee_Name (raw row);
     age := Employee_Age (raw row);
     skills := sorted (skill_set row);
     roles := Employee_Roles_Responsibilities (raw row);
     score := final_score;
     justification :=
       ("Role sim " +:+ fmt2 sim +:+ "; ")
       +:+ (if decide (required_keywords ≠ ∅)
            then "all required skills present; " else "")
       +:+ ("age score " +:+ fmt2 age_s) |}.

(** One turn of the loop over [zip(idxs, sims)]. *)
Definition visit (df : list Row) (required_keywords : gset string)
    (age_min age_max : Z) (candidates : list Candidate) (p : Z * float)
    : Result (list Candidate) :=
  let '(idx, sim) := p in
  if decide (idx = -1) then Ok candidates
  else
    row ← iloc df idx;
    if decide (required_keywords ≠ ∅ ∧ ¬ required_keywords ⊆ skill_set row)
    then Ok candidates
    else
      skill_ratio ← _skills_match_ratio (skill_set row) required_keywords;
      age_s ← _age_score math_exp (Employee_Age (raw row)) age_min age_max;
      if decide (¬ (age_min ≤ Employee_Age (raw row) ≤ age_max))
      then Ok candidates
      else
        let final_score :=
          (ROLE_WEIGHT * sim + SKILL_WEIGHT * skill_ratio + AGE_WEIGHT * age_s)%float in
        Ok (candidates ++
              [make_candidate required_keywords row sim age_s final_score]).

Fixpoint loop (df : list Row) (required_keywords : gset string)
    (age_min age_max : Z) (candidates : list Candidate) (pool : list (Z * float))
    : Result (list Candidate) :=
  match pool with
  | [] => Ok candidates
  | p :: pool' =>
      candidates' ← visit df required_keywords age_min age_max candidates p;
      loop df required_keywords age_min age_max candidates' pool'
  end.

(** [candidates.sort(key=lambda c: c["score"], reverse=True)]: the sort
    only asks whether one key is less than another; a candidate goes
    before another one when the other's score is less than its own, and
    candidates of which neither score is less keep their order. This is
    the sort of Python as long as no key is NaN. *)
Definition sort_by_score_desc (candidates : list Candidate) : list Candidate :=
  Py.stable_sort (λ c d, (score d <? score c)%float) candidates.

Definition search (self : EmployeeSearchEngine Embedding) (query : string)
    (skills : option (list string)) (age_min age_max top_k : Z)
    (return_json : bool) : Result (list Candidate) :=
  let required_keywords := normalise_keywords (default [] skills) in
  let query_vec := model_encode query in
  let '(D0, I0) := index_search (_embeddings self) query_vec TOP_K_RAW in
  let idxs := I0 in
  let sims := D0 in
  candidates ← loop (_df self) required_keywords age_min age_max [] (zip idxs sims);
  mret (Py.slice_to (sort_by_score_desc candidates) top_k).

(** The pairs the loop runs over. *)
Definition raw_pool (self : EmployeeSearchEngine Embedding) (query : string)
    : list (Z * float) :=
  let DI := index_search (_embeddings self) (model_encode query) TOP_K_RAW in
  zip DI.2 DI.1.

(** [survives df req age_min age_max p c]: the pool entry [p] passes both
    hard filters and [c] is the dictionary built for it. *)
Definition survives (df : list Row) (required_keywords : gset string)
    (age_min age_max : Z) (p : Z * float) (c : Candidate) : Prop :=
  ∃ row ratio,
    p.1 ≠ -1 ∧ iloc df p.1 = Ok row ∧
    (required_keywords = ∅ ∨ required_keywords ⊆ skill_set row) ∧
    age_min ≤ Employee_Age (raw row) ≤ age_max ∧
    _skills_match_ratio (skill_set row) required_keywords = Ok ratio ∧
    c = make_candidate required_keywords row p.2 1
          (ROLE_WEIGHT * p.2 + SKILL_WEIGHT * ratio + AGE_WEIGHT * 1)%float.

(** [selected df req age_min age_max pool new]: [new] lists, in the order
    of [pool], the dictionaries of the entries of [pool] that survive. *)
Inductive selected (df : list Row) (required_keywords : gset string)
    (age_min age_max : Z) : list (Z * float) → list Candidate → Prop :=
  | selected_nil : selected df required_keywords age_min age_max [] []
  | selected_skip p pool new :
      (∀ c, ¬ survives df required_keywords age_min age_max p c) →
      selected df required_keywords age_min age_max pool new →
      selected df required_keywords age_min age_max (p :: pool) new
  | selected_keep p c pool new :
      survives df required_keywords age_min age_max p c →
      selected df required_keywords age_min age_max pool new →
      selected df required_keywords age_min age_max (p :: pool) (c :: new).

(** [describes row c]: the candidate [c] shows the data of [row]. *)
Definition describes (row : Row) (c : Candidate) : Prop :=
  name c = Employee_Name (raw row) ∧ age c = Employee_Age (raw row) ∧
  skills c = sorted (skill_set row) ∧
  roles c = Employee_Roles_Responsibilities (raw row).

End Engine.

(** An order of iteration lists the elements of a set, each once. *)
Definition iteration_order (set_order : gset string → list string) : Prop :=
  ∀ s, set_order s ≡ₚ elements s.

(** No score is NaN: the scores can be compared with one another. *)
Definition scores_are_numbers (candidates : list Candidate) : Prop :=
  Forall (λ c, is_nan (score c) = false) candidates.

(** Ties broken by dataset row order: of two results with the same score,
    the one that stands first comes from the lower row. *)
Definition ties_in_row_order (set_order : gset string → list string)
    (df : list Row) (res : list Candidate) : Prop :=
  ∀ (i j : nat) ci cj,
    (i < j)%nat → res !! i = Some ci → res !! j = Some cj →
    (score ci =? score cj)%float = true →
    ∃ (ri rj : nat) rowi rowj,
      df !! ri = Some rowi ∧ df !! rj = Some rowj ∧
      describes set_order rowi ci ∧ describes set_order rowj cj ∧ (ri < rj)%nat.

End Runtime.

Arguments Runtime.search set_order {Embedding} model_encode index_search math_exp
  self query skills age_min age_max top_k return_json.
Arguments Runtime.raw_pool {Embedding} model_encode index_search self query.

(** ** The small dataset, as the interpreter runs it *)

Module RuntimeScenario.

(** The float32 number nearest to a binary64 number. *)
Definition float32 (x : float) : float :=
  match Prim2SF x with
  | S754_finite s m e => SF2Prim (binary_round 24 128 s m e)
  | _ => x
  end.

(** The inner product in float32 arithmetic, summed from left to right.
    (The order in which FAISS sums is its own affair; for the vectors
    below every product and every sum is exact.) *)
Definition inner_product (u v : list float) : float :=
  foldl (λ acc xy, float32 (acc + float32 (xy.1 * xy.2))) 0%float (zip u v).

(** The filler distance of an inner-product search: the lowest float32. *)
Definition NO_DISTANCE : float := (-0x1.fffffep127)%float.

(** A stand-in for [faiss.IndexFlatIP], as in the scenario above. *)
Definition flat_ip_search (stored : list (list float)) (q : list float) (k : nat)
    : list float * list Z :=
  let scored := imap (λ i v, (Z.of_nat i, inner_product v q)) stored in
  let best :=
    take k (Py.stable_sort (λ a b, (b.2 <? a.2)%float) (reverse scored)) in
  let pad := (k - length best)%nat in
  (best.*2 ++ replicate pad NO_DISTANCE, best.*1 ++ replicate pad (-1)).

(** A stand-in for the sentence encoder: vectors of float32 numbers whose
    length is 1 up to the rounding of float32. The first coordinates of
    the two role texts are the float32 numbers [0x1.99999ap-27] (about
    1.19e-8) and [0x1.333334p-2] (the nearest to 0.3); the query and
    every other text get the first basis vector. *)
Definition toy_encode (text : string) : list float :=
  if decide (text = "analytics engineer")
  then [0x1.99999ap-27; 1; 0; 0]%float
  else if decide (text = "backend engineer")
       then [0x1.333334p-2; 0x1.e86ab8p-1; 0; 0]%float
  else [1; 0; 0; 0]%float.

(** A stand-in for [math.exp]. *)
Definition toy_exp (x : float) : float := (1 / (1 - x))%float.

(** Two orders of iteration: the one of [elements], and its reverse. *)
Definition set_order (s : gset string) : list string := elements s.
Definition set_order' (s : gset string) : list string := reverse (elements s).

Definition engine : EmployeeSearchEngine (list float) :=
  match init toy_encode Scenario.sheet with
  | Ok e => e
  | Raise _ => {| _df := []; _embeddings := [] |}
  end.

(** The query of the scenario above. *)
Definition run : Result (list Runtime.Candidate) :=
  Runtime.search set_order toy_encode flat_ip_search toy_exp engine
    "staff engineer" (Some [" Python "]) 18 50 5 false.

End RuntimeScenario.

(** ** Around the engine: the search form and the HTTP service *)

(** [string_has c s]: the character [c] occurs in [s]. *)
Fixpoint string_has (c : ascii) (s : string) : bool :=
  match s with
  | EmptyString => false
  | String d s' => Ascii.eqb d c || string_has c s'
  end.

(** [s.endswith(suffix)]. *)
Definition endswith (s suffix : string) : bool :=
  let n := String.length s in
  let m := String.length suffix in
  (m <=? n)%nat && String.eqb (String.substring (n - m) m s) suffix.

Module Ui.

(** The skills field of the search form ([ui_app.py]):
    [[s.strip() for s in skills_input.split(",") if s.strip()]]. *)
Definition parse_skills_input (skills_input : string) : list string :=
  map Py.strip
    (filter (λ s, Py.truthy (Py.strip s) = true) (Py.split "," skills_input)).

End Ui.

Module Service.

(** The [detail] of the [HTTPException]s of [main.py]. *)
Inductive Detail : Type :=
  | UnknownDataset      (* "Unknown dataset_id. Upload a dataset first." *)
  | AgeRange            (* "age_min cannot exceed age_max" *)
  | NotExcel            (* "File must be .xls or .xlsx" *)
  | FailedToParse (cause : option PyExc).
                        (* f"Failed to parse Excel: {exc}"; [None]: the
                           exception came from [pd.read_excel] *)

(** What a route hands back: a response with its status code, an
    [HTTPException], or an exception that leaves the route. *)
Inductive Reply (A : Type) : Type :=
  | Response (status_code : Z) (body : A)
  | HTTPException (status_code : Z) (detail : Detail)
  | Escaped (e : PyExc).
Arguments Response {A} status_code body.
Arguments HTTPException {A} status_code detail.
Arguments Escaped {A} e.

(** [SearchRequest]; [skills] is [None] when the body has no such field. *)
Record SearchRequest : Type := {
  dataset_id : string;
  query : string;
  skills : option (list string);
  age_min : Z;
  age_max : Z;
  top_k : Z;
}.

(** The bounds the schema puts on the numbers of a request:
    [conint(ge=16, le=99)] for both ages, [conint(ge=1, le=20)] for
    [top_k]. *)
Definition valid (req : SearchRequest) : Prop :=
  (16 ≤ age_min req ≤ 99) ∧ (16 ≤ age_max req ≤ 99) ∧ (1 ≤ top_k req ≤ 20).

(** An uploaded file: its name, whether the file system accepts the copy
    of the upload under [UPLOAD_DIR], and what [pd.read_excel] makes of the
    bytes ([None]: it raises). *)
Record UploadFile : Type := {
  filename : string;
  saved : bool;
  parsed : option Sheet;
}.

Section Routes.

Context {Embedding : Type}.
Variable model_encode : string → Embedding.
Variable index_search : list Embedding → Embedding → nat → list Qc * list Z.
Variable math_exp : Qc → Qc.

(** [EmployeeSearchEngine(tmp_path)] inside the [try] of [upload_dataset]. *)
Definition build_engine (file : UploadFile)
    : Detail + EmployeeSearchEngine Embedding :=
  match parsed file with
  | None => inl (FailedToParse None)
  | Some sheet =>
      match init model_encode sheet with
      | Ok engine => inr engine
      | Raise exc => inl (FailedToParse (Some exc))
      end
  end.

(** [POST /dataset]. [ENGINES] is the registry before the call, [uuid_hex]
    the value of the [uuid.uuid4().hex] that names the dataset; the result
    is the reply and the registry after the call. The copy of the upload
    is written before the [try]: when it cannot be written the exception
    leaves the route. A name with a path separator puts the copy into a
    directory, named after a fresh uuid, that does not exist. *)
Definition upload_dataset (ENGINES : gmap string (EmployeeSearchEngine Embedding))
    (file : UploadFile) (uuid_hex : string)
    : Reply string * gmap string (EmployeeSearchEngine Embedding) :=
  if negb (endswith (Py.lower (filename file)) ".xls"
           || endswith (Py.lower (filename file)) ".xlsx")
  then (HTTPException 415 NotExcel, ENGINES)
  else if string_has "/" (filename file) || negb (saved file)
  then (Escaped OSError, ENGINES)
  else
    match build_engine file with
    | inl detail => (HTTPException 400 detail, ENGINES)
    | inr engine =>
        let dataset_id := String.substring 0 8 uuid_hex in
        (Response 201 dataset_id, <[dataset_id := engine]> ENGINES)
    end.

(** [POST /search], for a request that passed the schema. *)
Definition search_route (ENGINES : gmap string (EmployeeSearchEngine Embedding))
    (req : SearchRequest) : Reply (list Candidate) :=
  match ENGINES !! dataset_id req with
  | None => HTTPException 404 UnknownDataset
  | Some engine =>
      if decide (age_min req > age_max req) then HTTPException 400 AgeRange
      else
        match search model_encode index_search math_exp engine (query req)
                (Some (default [] (skills req)))
                (age_min req) (age_max req) (top_k req) false with
        | Ok raw => Response 200 raw
        | Raise e => Escaped e
        end
  end.

(** The registry only holds engines with one stored vector per row. *)
Definition registry_ok (ENGINES : gmap string (EmployeeSearchEngine Embedding)) : Prop :=
  ∀ id engine, ENGINES !! id = Some engine →
    length (_embeddings engine) = length (_df engine).

(** The promise of FAISS, for every index and every query. *)
Definition index_contract : Prop :=
  ∀ stored query_vec k,
    pool_well_formed (length stored) k (index_search stored query_vec k).

End Routes.

End Service.

(** ** The service on the small dataset *)

Module ServiceScenario.

Definition registry : gmap string (EmployeeSearchEngine (list Qc)) :=
  {[ "a1b2c3d4" := Scenario.engine ]}.

Definition request : Service.SearchRequest :=
  {| Service.dataset_id := "a1b2c3d4";
     Service.query := "staff engineer";
     Service.skills := Some [" Python "];
     Service.age_min := 18;
     Service.age_max := 50;
     Service.top_k := 5 |}.

Definition upload : Service.UploadFile :=
  {| Service.filename := "Staff.XLSX"; Service.saved := true;
     Service.parsed := Some Scenario.sheet |}.

Definition notes : Service.UploadFile :=
  {| Service.filename := "staff.csv"; Service.saved := true;
     Service.parsed := Some Scenario.sheet |}.

Definition uuid_hex : string := "0f1e2d3c4b5a69788796a5b4c3d2e1f0".

End ServiceScenario.

(** * Properties *)

(** ** The stable sort *)

Section Precedes.
Context {A : Type}.
Implicit Types (l : list A) (a b x : A).

Lemma precedes_cons_inv x l a b :
  precedes (x :: l) a b → (a = x ∧ b ∈ l) ∨ precedes l a b.
Proof. inversion 1; subst; auto. Qed.

Lemma precedes_nil a b : ¬ precedes (@nil A) a b.
Proof. inversion 1. Qed.

Lemma precedes_elem_of l a b : precedes l a b → a ∈ l ∧ b ∈ l.
Proof.
  induction 1 as [x l b Hb | x l a b _ [IHa IHb]]; split;
    solve [ by left | by right ].
Qed.

Lemma precedes_lookup l a b :
  precedes l a b ↔
  ∃ i j : nat, (i < j)%nat ∧ l !! i = Some a ∧ l !! j = Some b.
Proof.
  split.
  - induction 1 as [x l b Hb | x l a b _ (i & j & Hij & Hi & Hj)].
    + apply list_elem_of_lookup in Hb as [j Hj].
      exists 0%nat, (S j). repeat split; [lia | done..].
    + exists (S i), (S j). repeat split; [lia | done..].
  - intros (i & j & Hij & Hi & Hj). revert i j Hij Hi Hj.
    induction l as [|x l IH]; intros i j Hij Hi Hj; [done|].
    destruct j as [|j]; [lia|]. destruct i as [|i]; simpl in *.
    + injection Hi as ->. constructor. by eapply list_elem_of_lookup_2.
    + constructor. apply (IH i j); [lia | done..].
Qed.

Lemma precedes_app_l l l' a b : precedes l a b → precedes (l ++ l') a b.
Proof.
  induction 1; simpl; constructor; [|done].
  apply elem_of_app; by left.
Qed.

Lemma precedes_app_r l l' a b : precedes l' a b → precedes (l ++ l') a b.
Proof. intros H. induction l; simpl; [done | by constructor]. Qed.

Lemma precedes_app_inv l l' a b :
  precedes (l ++ l') a b →
  precedes l a b ∨ (a ∈ l ∧ b ∈ l') ∨ precedes l' a b.
Proof.
  induction l as [|x l IH]; simpl; intros H; [auto|].
  apply precedes_cons_inv in H as [[-> Hb] | H].
  - apply elem_of_app in Hb as [Hb | Hb].
    + left. by constructor.
    + right; left. split; [by left | done].
  - destruct (IH H) as [H1 | [[Ha Hb] | H3]]; [| |auto].
    + left. by constructor.
    + right; left. split; [by right | done].
Qed.

Lemma precedes_take (k : nat) l a b : precedes (take k l) a b → precedes l a b.
Proof.
  intros H. rewrite <- (take_drop k l). by apply precedes_app_l.
Qed.
End Precedes.

Section StableSortFacts.
Context {A : Type} (before : A → A → bool).
Implicit Types (l : list A) (a b x : A).

Lemma insert_Permutation x l : Py.insert before x l ≡ₚ x :: l.
Proof.
  induction l as [|y l IH]; simpl; [done|].
  destruct (before y x); [|done].
  rewrite IH. apply Permutation_swap.
Qed.

Lemma stable_sort_Permutation l : Py.stable_sort before l ≡ₚ l.
Proof.
  induction l as [|x l IH]; simpl; [done|].
  rewrite insert_Permutation. by rewrite IH.
Qed.

Lemma elem_of_stable_sort l x : x ∈ Py.stable_sort before l ↔ x ∈ l.
Proof. by rewrite stable_sort_Permutation. Qed.

Lemma length_stable_sort l : length (Py.stable_sort before l) = length l.
Proof. by rewrite stable_sort_Permutation. Qed.

(** Stability: the sort moves [a] in front of [b] only when [a] has to
    come strictly before [b]. *)
Lemma insert_precedes x l a b :
  precedes (Py.insert before x l) a b →
  precedes l a b ∨ (a = x ∧ b ∈ l) ∨ (b = x ∧ a ∈ l ∧ before a x = true).
Proof.
  induction l as [|y l IH]; simpl.
  - intros H. apply precedes_cons_inv in H as [[_ Hb] | H]; [|by left].
    by apply elem_of_nil in Hb.
  - destruct (before y x) eqn:Hyx; intros H.
    + apply precedes_cons_inv in H as [[-> Hb] | H].
      * rewrite insert_Permutation in Hb.
        apply elem_of_cons in Hb as [-> | Hb].
        -- right; right. repeat split; [by left | done].
        -- left. by constructor.
      * destruct (IH H) as [H1 | [[-> Hb] | (-> & Ha & Hax)]].
        -- left. by constructor.
        -- right; left. split; [done | by right].
        -- right; right. repeat split; [by right | done].
    + apply precedes_cons_inv in H as [[-> Hb] | H]; [|by left].
      right; left. done.
Qed.

Lemma stable_sort_precedes l a b :
  precedes (Py.stable_sort before l) a b →
  precedes l a b ∨ before a b = true.
Proof.
  revert a b. induction l as [|x l IH]; simpl; intros a b H.
  - by apply precedes_nil in H.
  - apply insert_precedes in H as [H | [[-> Hb] | (-> & Ha & Hax)]].
    + destruct (IH _ _ H) as [H' | H']; [left | by right].
      by apply precedes_later.
    + left. apply precedes_here. by apply (elem_of_stable_sort l b).
    + by right.
Qed.

(** Order: when [before] is asymmetric and its complement is transitive
    (a strict weak order), the output never has [b] ahead of [a] where
    [a] has to come strictly before [b]. *)
Hypothesis before_asym : ∀ a b, before a b = true → before b a = false.
Hypothesis before_negtrans :
  ∀ a b c, before b a = false → before c b = false → before c a = false.

Lemma insert_StronglySorted x l :
  StronglySorted (λ a b, before b a = false) l →
  StronglySorted (λ a b, before b a = false) (Py.insert before x l).
Proof.
  induction 1 as [|y l Hl IH Hy]; simpl.
  - repeat constructor.
  - destruct (before y x) eqn:Hyx.
    + constructor; [done|].
      apply Forall_forall. intros z Hz.
      rewrite insert_Permutation in Hz. apply elem_of_cons in Hz as [-> | Hz].
      * by apply before_asym.
      * by eapply Forall_forall in Hy.
    + constructor; [by constructor|].
      constructor; [done|].
      eapply Forall_impl; [exact Hy|]. simpl. intros z Hz.
      by eapply before_negtrans.
Qed.

Lemma stable_sort_StronglySorted l :
  StronglySorted (λ a b, before b a = false) (Py.stable_sort before l).
Proof.
  induction l; simpl; [constructor | by apply insert_StronglySorted].
Qed.
End StableSortFacts.

(** ** Python helpers *)

Lemma elem_of_sorted (s : gset string) (x : string) : x ∈ Py.sorted s ↔ x ∈ s.
Proof. unfold Py.sorted. by rewrite elem_of_stable_sort, elem_of_elements. Qed.

Lemma slice_to_take {A} (l : list A) (k : Z) : ∃ n : nat, Py.slice_to l k = take n l.
Proof. unfold Py.slice_to. case_decide; eauto. Qed.

Lemma slice_to_length {A} (l : list A) (k : Z) :
  0 ≤ k → Z.of_nat (length (Py.slice_to l k)) ≤ k.
Proof.
  intros Hk. unfold Py.slice_to. rewrite decide_True by done.
  rewrite length_take. lia.
Qed.

Lemma slice_to_length_le {A} (l : list A) (k : Z) :
  (length (Py.slice_to l k) ≤ length l)%nat.
Proof.
  destruct (slice_to_take l k) as [n ->]. rewrite length_take. lia.
Qed.

Lemma slice_to_all {A} (l : list A) (k : Z) :
  Z.of_nat (length l) ≤ k → Py.slice_to l k = l.
Proof.
  intros Hk. unfold Py.slice_to. rewrite decide_True by lia.
  apply take_ge. lia.
Qed.

Lemma truediv_bounds (a b : Z) :
  0 ≤ a ≤ b → 1 ≤ b →
  Py.truediv a b = Ok (Qc_of_Z a / Qc_of_Z b)%Qc ∧
  (0 ≤ Qc_of_Z a / Qc_of_Z b ≤ 1)%Qc.
Proof.
  intros Ha Hb. unfold Py.truediv.
  destruct (decide (b = 0)) as [->|_]; [lia|].
  split; [done|].
  unfold Qcle, Qcdiv, Qcmult, Qcinv. simpl.
  rewrite !Qred_correct.
  assert (0 < inject_Z b)%Q as Hpos.
  { change 0%Q with (inject_Z 0). rewrite <- Zlt_Qlt. lia. }
  split.
  - apply Qle_shift_div_l; [done|]. rewrite Qmult_0_l.
    change 0%Q with (inject_Z 0). rewrite <- Zle_Qle. lia.
  - apply Qle_shift_div_r; [done|]. rewrite Qmult_1_l.
    rewrite <- Zle_Qle. lia.
Qed.

(** ** The order of strings *)

Lemma ltb_false_leb (a b : string) : String.ltb b a = false ↔ String.leb a b = true.
Proof.
  unfold String.ltb, String.leb. rewrite (String.compare_antisym b a).
  by destruct (String.compare a b).
Qed.

Lemma ltb_asym (a b : string) : String.ltb a b = true → String.ltb b a = false.
Proof.
  unfold String.ltb. rewrite (String.compare_antisym a b).
  by destruct (String.compare b a).
Qed.

Lemma ltb_negtrans (a b c : string) :
  String.ltb b a = false → String.ltb c b = false → String.ltb c a = false.
Proof.
  rewrite !ltb_false_leb. intros Hab Hbc.
  apply Is_true_true. apply Is_true_true in Hab, Hbc.
  exact (transitivity (R := String.le) Hab Hbc).
Qed.

Lemma ltb_total (a b : string) : a ≠ b → String.ltb b a = false → String.ltb a b = true.
Proof.
  unfold String.ltb. rewrite (String.compare_antisym a b).
  destruct (String.compare b a) eqn:Hc; simpl; try done.
  intros Hne. by apply String.compare_eq_iff in Hc.
Qed.

(** ** Scoring helpers *)

Lemma age_score_in_range math_exp (a lo hi : Z) :
  lo ≤ a ≤ hi → _age_score math_exp a lo hi = 1%Qc.
Proof. intros H. unfold _age_score. by rewrite decide_True. Qed.

Lemma skills_match_ratio_subset (cand req : gset string) :
  req ≠ ∅ → req ⊆ cand →
  _skills_match_ratio cand req =
    Ok (Qc_of_Z (Z.of_nat (size req)) /
        Qc_of_Z (Z.max (Z.of_nat (size cand)) 1))%Qc ∧
  (0 ≤ Qc_of_Z (Z.of_nat (size req)) /
       Qc_of_Z (Z.max (Z.of_nat (size cand)) 1) ≤ 1)%Qc.
Proof.
  intros Hne Hsub. unfold _skills_match_ratio.
  rewrite decide_False by done. rewrite decide_False by tauto.
  apply truediv_bounds; [|lia].
  apply subseteq_size in Hsub. lia.
Qed.

Lemma skills_match_ratio_total (cand req : gset string) :
  ∃ r, _skills_match_ratio cand req = Ok r ∧ (0 ≤ r ≤ 1)%Qc.
Proof.
  destruct (decide (req = ∅)) as [Hreq | Hreq].
  - exists 1%Qc. unfold _skills_match_ratio. rewrite decide_True by done.
    split; [done|]. split; by vm_compute.
  - destruct (decide (req ⊆ cand)) as [Hsub | Hsub].
    + destruct (skills_match_ratio_subset cand req Hreq Hsub) as [-> ?]. eauto.
    + exists 0%Qc. unfold _skills_match_ratio.
      rewrite decide_False by done. rewrite decide_True by done.
      split; [done|]. split; by vm_compute.
Qed.

(** ** The loop of [search] *)

Lemma iloc_elem_of (df : list Row) (idx : Z) (row : Row) :
  iloc df idx = Ok row → row ∈ df.
Proof.
  unfold iloc. case_decide; [|done].
  destruct (df !! _) eqn:Hrow; [|done].
  intros [= <-]. by eapply list_elem_of_lookup_2.
Qed.

Lemma iloc_total (df : list Row) (idx : Z) :
  -1 ≤ idx < Z.of_nat (length df) → idx ≠ -1 → ∃ row, iloc df idx = Ok row.
Proof.
  intros Hidx Hne. unfold iloc.
  rewrite (decide_False (P := idx < 0)) by lia.
  rewrite decide_True by lia.
  destruct (lookup_lt_is_Some_2 df (Z.to_nat idx)) as [row ->]; [lia | eauto].
Qed.

Lemma make_candidate_describes req row sim age_s final :
  describes row (make_candidate req row sim age_s final).
Proof. by repeat split. Qed.

Section LoopFacts.

Variable math_exp : Qc → Qc.
Variables (df : list Row) (req : gset string) (lo hi : Z).

Lemma survives_functional p c c' :
  survives df req lo hi p c → survives df req lo hi p c' → c = c'.
Proof.
  intros (row & ratio & _ & Hrow & _ & _ & Hratio & ->)
         (row' & ratio' & _ & Hrow' & _ & _ & Hratio' & ->).
  rewrite Hrow in Hrow'. injection Hrow' as <-.
  rewrite Hratio in Hratio'. by injection Hratio' as <-.
Qed.

(** A turn of the loop either leaves the list as it is, for an entry that
    does not survive, or appends the dictionary of a surviving entry. *)
Lemma visit_inv acc p acc' :
  visit math_exp df req lo hi acc p = Ok acc' →
  (acc' = acc ∧ ∀ c, ¬ survives df req lo hi p c) ∨
  (∃ c, survives df req lo hi p c ∧ acc' = acc ++ [c]).
Proof.
  destruct p as [idx sim]. unfold visit.
  destruct (decide (idx = -1)) as [Hidx | Hidx].
  { intros [= <-]. left. split; [done|].
    intros c (row & ratio & Hne & _). done. }
  destruct (iloc df idx) as [row|e] eqn:Hrow; simpl; [|done].
  destruct (decide (req ≠ ∅ ∧ ¬ req ⊆ skill_set row)) as [Hskip | Hkeep].
  { intros [= <-]. left. split; [done|].
    intros c (row' & ratio & _ & Hrow' & Hsk & _). simpl in Hrow'.
    rewrite Hrow in Hrow'. injection Hrow' as <-.
    destruct Hskip as [Hne Hsub]. destruct Hsk; done. }
  destruct (skills_match_ratio_total (skill_set row) req) as (ratio & Hratio & _).
  rewrite Hratio. simpl.
  destruct (decide (¬ lo ≤ Employee_Age (raw row) ≤ hi)) as [Hout | Hin].
  { intros [= <-]. left. split; [done|].
    intros c (row' & ratio' & _ & Hrow' & _ & Hage & _). simpl in Hrow'.
    rewrite Hrow in Hrow'. injection Hrow' as <-. done. }
  assert (lo ≤ Employee_Age (raw row) ≤ hi) as Hage by lia.
  intros [= <-]. right. eexists. split; [|reflexivity].
  exists row, ratio. rewrite (age_score_in_range _ _ _ _ Hage).
  repeat split; try done; try lia.
  destruct (decide (req = ∅)); [by left | right].
  destruct (decide (req ⊆ skill_set row)); [done | tauto].
Qed.

Lemma visit_survivor acc p c :
  survives df req lo hi p c →
  visit math_exp df req lo hi acc p = Ok (acc ++ [c]).
Proof.
  intros Hs.
  destruct (visit math_exp df req lo hi acc p) as [acc'|e] eqn:Hv.
  - apply visit_inv in Hv as [[_ Hno] | (c' & Hs' & ->)].
    + by destruct (Hno c).
    + by rewrite (survives_functional _ _ _ Hs Hs').
  - exfalso. destruct p as [idx sim].
    destruct Hs as (row & ratio & Hne & Hrow & Hsk & Hage & Hratio & _).
    simpl in *. unfold visit in Hv.
    rewrite decide_False in Hv by done. rewrite Hrow in Hv. simpl in Hv.
    destruct (decide _) in Hv; [done|].
    rewrite Hratio in Hv. simpl in Hv.
    destruct (decide _) in Hv; done.
Qed.

(** An entry whose row lacks a required keyword is dropped before any
    score is computed for it. *)
Lemma visit_skill_discard acc idx sim row :
  iloc df idx = Ok row → req ≠ ∅ → ¬ req ⊆ skill_set row →
  visit math_exp df req lo hi acc (idx, sim) = Ok acc.
Proof.
  intros Hrow Hne Hsub. unfold visit.
  destruct (decide (idx = -1)); [done|].
  rewrite Hrow. simpl. by rewrite decide_True.
Qed.

(** An entry whose row is outside the age range is dropped. *)
Lemma visit_age_discard acc idx sim row :
  iloc df idx = Ok row → ¬ lo ≤ Employee_Age (raw row) ≤ hi →
  visit math_exp df req lo hi acc (idx, sim) = Ok acc.
Proof.
  intros Hrow Hage. unfold visit.
  destruct (decide (idx = -1)); [done|].
  rewrite Hrow. simpl.
  destruct (decide _); [done|].
  destruct (skills_match_ratio_total (skill_set row) req) as (ratio & -> & _).
  simpl. by rewrite decide_True.
Qed.

Lemma visit_total acc p :
  -1 ≤ p.1 < Z.of_nat (length df) →
  ∃ acc', visit math_exp df req lo hi acc p = Ok acc'.
Proof.
  destruct p as [idx sim]. simpl. intros Hidx. unfold visit.
  destruct (decide (idx = -1)); [eauto|].
  destruct (iloc_total df idx Hidx) as [row ->]; [done|]. simpl.
  destruct (decide _); [eauto|].
  destruct (skills_match_ratio_total (skill_set row) req) as (ratio & -> & _).
  simpl. destruct (decide _); eauto.
Qed.

Lemma loop_inv pool : ∀ acc res,
  loop math_exp df req lo hi acc pool = Ok res →
  ∃ new, res = acc ++ new ∧ selected df req lo hi pool new.
Proof.
  induction pool as [|p pool IH]; simpl; intros acc res.
  - intros [= <-]. exists []. split; [by rewrite app_nil_r | constructor].
  - destruct (visit math_exp df req lo hi acc p) as [acc'|e] eqn:Hv; [|done].
    simpl. intros Hl. destruct (IH _ _ Hl) as (new & -> & Hsel).
    apply visit_inv in Hv as [[-> Hno] | (c & Hs & ->)].
    + exists new. split; [done | by constructor].
    + exists (c :: new). split; [by rewrite <- app_assoc | by constructor].
Qed.

Lemma loop_total pool : ∀ acc,
  Forall (λ p, -1 ≤ p.1 < Z.of_nat (length df)) pool →
  ∃ res, loop math_exp df req lo hi acc pool = Ok res.
Proof.
  induction pool as [|p pool IH]; simpl; intros acc Hpool; [eauto|].
  apply Forall_cons in Hpool as [Hp Hpool].
  destruct (visit_total acc p Hp) as [acc' ->]. simpl. by apply IH.
Qed.

Lemma selected_elem_of pool new c :
  selected df req lo hi pool new → c ∈ new →
  ∃ p, p ∈ pool ∧ survives df req lo hi p c.
Proof.
  induction 1 as [|p pool new _ _ IH | p c' pool new Hs _ IH]; intros Hc.
  - by apply elem_of_nil in Hc.
  - destruct (IH Hc) as (q & ? & ?). exists q. split; [by right | done].
  - apply elem_of_cons in Hc as [-> | Hc].
    + exists p. split; [by left | done].
    + destruct (IH Hc) as (q & ? & ?). exists q. split; [by right | done].
Qed.

Lemma selected_complete pool new p c :
  selected df req lo hi pool new → p ∈ pool → survives df req lo hi p c →
  c ∈ new.
Proof.
  induction 1 as [|q pool new Hno _ IH | q c' pool new Hs _ IH];
    intros Hp Hsurv.
  - by apply elem_of_nil in Hp.
  - apply elem_of_cons in Hp as [-> | Hp]; [by destruct (Hno c) | auto].
  - apply elem_of_cons in Hp as [-> | Hp].
    + rewrite (survives_functional _ _ _ Hsurv Hs). by left.
    + right. auto.
Qed.

Lemma selected_length pool new :
  selected df req lo hi pool new → (length new ≤ length pool)%nat.
Proof. induction 1; simpl; lia. Qed.

End LoopFacts.

(** ** The sort by score *)

Lemma StronglySorted_precedes {A} (R : A → A → Prop) (l : list A) a b :
  StronglySorted R l → precedes l a b → R a b.
Proof.
  induction 1 as [|x l _ IH Hx]; intros Hab.
  - by apply precedes_nil in Hab.
  - apply precedes_cons_inv in Hab as [[-> Hb] | Hab]; [|auto].
    by eapply Forall_forall in Hx.
Qed.

(** ** [search] as a whole *)

Section SearchFacts.

Context {Embedding : Type}.
Variable model_encode : string → Embedding.
Variable index_search : list Embedding → Embedding → nat → list Qc * list Z.
Variable math_exp : Qc → Qc.
Variable self : EmployeeSearchEngine Embedding.
Variables (query : string) (required_skills : option (list string)).
Variables (age_min age_max top_k : Z) (return_json : bool).

Lemma search_unfold :
  search model_encode index_search math_exp self query required_skills
    age_min age_max top_k return_json =
  candidates ← loop math_exp (_df self) (normalise_keywords (default [] required_skills))
                 age_min age_max [] (raw_pool model_encode index_search self query);
  mret (Py.slice_to (sort_by_score_desc candidates) top_k).
Proof.
  unfold search, raw_pool.
  by destruct (index_search _ _ _) as [D0 I0].
Qed.

Lemma search_inv res :
  search model_encode index_search math_exp self query required_skills
    age_min age_max top_k return_json = Ok res →
  ∃ candidates,
    selected (_df self) (normalise_keywords (default [] required_skills)) age_min age_max
      (raw_pool model_encode index_search self query) candidates ∧
    res = Py.slice_to (sort_by_score_desc candidates) top_k.
Proof.
  rewrite search_unfold.
  destruct (loop _ _ _ _ _ _ _) as [candidates|e] eqn:Hl; [|done].
  intros [= <-]. apply loop_inv in Hl as (new & -> & Hsel).
  by exists new.
Qed.

Lemma search_elem_of res c :
  search model_encode index_search math_exp self query required_skills
    age_min age_max top_k return_json = Ok res →
  c ∈ res →
  ∃ p, p ∈ raw_pool model_encode index_search self query ∧
       survives (_df self) (normalise_keywords (default [] required_skills))
         age_min age_max p c.
Proof.
  intros Hs Hc. apply search_inv in Hs as (candidates & Hsel & ->).
  destruct (slice_to_take (sort_by_score_desc candidates) top_k) as [n Hn].
  rewrite Hn in Hc. apply elem_of_take in Hc as (i & Hc & _).
  apply list_elem_of_lookup_2 in Hc.
  apply elem_of_stable_sort in Hc.
  by eapply selected_elem_of.
Qed.

Lemma search_total :
  pool_well_formed (length (_df self)) TOP_K_RAW
    (index_search (_embeddings self) (model_encode query) TOP_K_RAW) →
  ∃ res, search model_encode index_search math_exp self query required_skills
           age_min age_max top_k return_json = Ok res.
Proof.
  intros (_ & _ & Hlabels). rewrite search_unfold.
  destruct (loop_total math_exp (_df self)
              (normalise_keywords (default [] required_skills)) age_min age_max
              (raw_pool model_encode index_search self query) []) as [cs ->].
  - unfold raw_pool. apply Forall_forall. intros [idx sim] Hp. simpl.
    apply elem_of_zip_l in Hp. by eapply Forall_forall in Hlabels.
  - simpl. eauto.
Qed.

End SearchFacts.

(** The value of [math.exp] never reaches a dictionary: the only call of
    [_age_score] whose result is kept is made for an age inside the
    range. *)
Lemma visit_exp_irrelevant exp1 exp2 df req lo hi acc p :
  visit exp1 df req lo hi acc p = visit exp2 df req lo hi acc p.
Proof.
  destruct p as [idx sim]. unfold visit.
  destruct (decide (idx = -1)); [done|].
  destruct (iloc df idx) as [row|e]; simpl; [|done].
  destruct (decide _); [done|].
  destruct (_skills_match_ratio _ _) as [ratio|e]; simpl; [|done].
  destruct (decide (¬ lo ≤ Employee_Age (raw row) ≤ hi)) as [|Hin]; [done|].
  by rewrite !age_score_in_range by lia.
Qed.

Lemma loop_exp_irrelevant exp1 exp2 df req lo hi pool : ∀ acc,
  loop exp1 df req lo hi acc pool = loop exp2 df req lo hi acc pool.
Proof.
  induction pool as [|p pool IH]; simpl; intros acc; [done|].
  rewrite (visit_exp_irrelevant exp1 exp2).
  destruct (visit exp2 df req lo hi acc p); simpl; [apply IH | done].
Qed.

Lemma length_raw_pool {Embedding} (model_encode : string → Embedding)
    index_search (self : EmployeeSearchEngine Embedding) query :
  pool_well_formed (length (_df self)) TOP_K_RAW
    (index_search (_embeddings self) (model_encode query) TOP_K_RAW) →
  length (raw_pool model_encode index_search self query) = TOP_K_RAW.
Proof.
  intros (HD & HI & _). unfold raw_pool.
  rewrite length_zip_with. lia.
Qed.

(** * The stated properties *)

Section Claims.

Context {Embedding : Type}.
Variable model_encode : string → Embedding.
Variable index_search : list Embedding → Embedding → nat → list Qc * list Z.
Variable math_exp : Qc → Qc.
Variable self : EmployeeSearchEngine Embedding.
Variables (query : string) (required_skills : option (list string)).
Variables (age_min age_max top_k : Z) (return_json : bool).

(** C1. Skill hard filter: every candidate [search] returns shows a row of
    the dataset whose [skill_set] contains every required keyword (the
    skills trimmed, lowercased, blanks dropped), so each keyword is in the
    candidate's skill list; and a pool entry whose row lacks a keyword
    leaves the list of candidates as it was, before any score is
    computed. *)
Theorem skill_hard_filter (res : list Candidate) :
  search model_encode index_search math_exp self query required_skills
    age_min age_max top_k return_json = Ok res →
  let required_keywords := normalise_keywords (default [] required_skills) in
  (∀ c, c ∈ res →
     ∃ row, row ∈ _df self ∧ describes row c ∧
            required_keywords ⊆ skill_set row ∧
            ∀ kw, kw ∈ required_keywords → kw ∈ skills c) ∧
  (∀ candidates idx sim row,
     iloc (_df self) idx = Ok row →
     required_keywords ≠ ∅ → ¬ required_keywords ⊆ skill_set row →
     visit math_exp (_df self) required_keywords age_min age_max
       candidates (idx, sim) = Ok candidates).
Proof.
  intros Hs req. split.
  - intros c Hc.
    destruct (search_elem_of _ _ _ _ _ _ _ _ _ _ _ _ Hs Hc)
      as (p & _ & row & ratio & _ & Hrow & Hsk & _ & _ & ->).
    assert (req ⊆ skill_set row) as Hsub.
    { destruct Hsk as [Hsk | Hsk]; [|done]. unfold req. rewrite Hsk.
      apply empty_subseteq. }
    exists row. repeat split; [by eapply iloc_elem_of | done |].
    intros kw Hkw. simpl. by apply elem_of_sorted, Hsub.
  - intros. by eapply visit_skill_discard.
Qed.

(** C2. Age hard filter: every candidate [search] returns has an age
    within [age_min, age_max], bounds included; a pool entry whose row has
    an age outside the range leaves the list of candidates as it was. *)
Theorem age_hard_filter (res : list Candidate) :
  search model_encode index_search math_exp self query required_skills
    age_min age_max top_k return_json = Ok res →
  (∀ c, c ∈ res → age_min ≤ age c ≤ age_max) ∧
  (∀ candidates idx sim row,
     iloc (_df self) idx = Ok row →
     ¬ age_min ≤ Employee_Age (raw row) ≤ age_max →
     visit math_exp (_df self) (normalise_keywords (default [] required_skills))
       age_min age_max candidates (idx, sim) = Ok candidates).
Proof.
  intros Hs. split.
  - intros c Hc.
    destruct (search_elem_of _ _ _ _ _ _ _ _ _ _ _ _ Hs Hc)
      as (p & _ & row & ratio & _ & _ & _ & Hage & _ & ->).
    done.
  - intros. by eapply visit_age_discard.
Qed.

(** C3. Score formula: the weights are the constants 0.5, 0.3 and 0.2;
    every returned candidate comes from a pool entry [(idx, sim)] and has
    score 0.5 * sim + 0.3 * skill_ratio + 0.2 * age_score, where age_score
    is 1, so the score is 0.5 * sim + 0.3 * skill_ratio + 0.2; and the
    decay branch of [_age_score] does not reach the result: whatever
    [math.exp] computes, [search] returns the same list. *)
Theorem score_formula (res : list Candidate) :
  search model_encode index_search math_exp self query required_skills
    age_min age_max top_k return_json = Ok res →
  (ROLE_WEIGHT = Q2Qc 0.5%Q ∧ SKILL_WEIGHT = Q2Qc 0.3%Q ∧
   AGE_WEIGHT = Q2Qc 0.2%Q) ∧
  (∀ c, c ∈ res →
     ∃ idx sim row skill_ratio,
       (idx, sim) ∈ raw_pool model_encode index_search self query ∧
       iloc (_df self) idx = Ok row ∧ describes row c ∧
       _skills_match_ratio (skill_set row)
         (normalise_keywords (default [] required_skills)) = Ok skill_ratio ∧
       let age_s :=
         _age_score math_exp (Employee_Age (raw row)) age_min age_max in
       score c =
         (ROLE_WEIGHT * sim + SKILL_WEIGHT * skill_ratio + AGE_WEIGHT * age_s)%Qc ∧
       age_s = 1%Qc ∧
       score c =
         (Q2Qc 0.5%Q * sim + Q2Qc 0.3%Q * skill_ratio + Q2Qc 0.2%Q)%Qc) ∧
  (∀ other_exp,
     search model_encode index_search other_exp self query required_skills
       age_min age_max top_k return_json = Ok res).
Proof.
  intros Hs. split; [done|]. split.
  - intros c Hc.
    destruct (search_elem_of _ _ _ _ _ _ _ _ _ _ _ _ Hs Hc)
      as ([idx sim] & Hp & row & ratio & _ & Hrow & _ & Hage & Hratio & ->).
    simpl in *. exists idx, sim, row, ratio.
    rewrite (age_score_in_range _ _ _ _ Hage).
    repeat split; done.
  - intros other_exp. rewrite <- Hs. rewrite !search_unfold.
    by rewrite (loop_exp_irrelevant other_exp math_exp).
Qed.

(** C5. Cap: when [top_k] is positive and the index keeps the promise of
    FAISS (as many labels and distances as asked for, each label a row
    position or -1), [search] returns a list of at most [top_k] and at most
    [TOP_K_RAW] = 20 candidates, whatever the size of the dataset. *)
Theorem result_cap :
  0 < top_k →
  pool_well_formed (length (_df self)) TOP_K_RAW
    (index_search (_embeddings self) (model_encode query) TOP_K_RAW) →
  ∃ res,
    search model_encode index_search math_exp self query required_skills
      age_min age_max top_k return_json = Ok res ∧
    Z.of_nat (length res) ≤ top_k ∧
    (length res ≤ TOP_K_RAW)%nat ∧ TOP_K_RAW = 20%nat.
Proof.
  intros Hk Hwf.
  destruct (search_total model_encode index_search math_exp self query
              required_skills age_min age_max top_k return_json Hwf)
    as [res Hs].
  exists res. split; [done|].
  apply search_inv in Hs as (candidates & Hsel & ->).
  split; [apply slice_to_length; lia|]. split; [|done].
  etrans; [apply slice_to_length_le|].
  unfold sort_by_score_desc. rewrite length_stable_sort.
  apply selected_length in Hsel.
  by rewrite (length_raw_pool _ _ _ _ Hwf) in Hsel.
Qed.

(** C8. Empty required skills: the ratio is 1.0 for every skill set; no
    pool entry is dropped on skill grounds, that is, an entry with a row in
    the age range gets its dictionary appended, with score
    0.5 * sim + 0.3 * 1 + 0.2 * 1, and is returned when [top_k] does not
    cut the list. With required skills that are all present the ratio is
    |required| / max(|skill_set|, 1). *)
Theorem empty_skills_no_filter :
  (∀ candidate_skills, _skills_match_ratio candidate_skills ∅ = Ok 1%Qc) ∧
  (∀ candidate_skills required_keywords,
     required_keywords ≠ ∅ → required_keywords ⊆ candidate_skills →
     _skills_match_ratio candidate_skills required_keywords =
       Ok (Qc_of_Z (Z.of_nat (size required_keywords)) /
           Qc_of_Z (Z.max (Z.of_nat (size candidate_skills)) 1))%Qc) ∧
  (normalise_keywords (default [] required_skills) = ∅ →
   ∀ idx sim row,
     (idx, sim) ∈ raw_pool model_encode index_search self query →
     idx ≠ -1 → iloc (_df self) idx = Ok row →
     age_min ≤ Employee_Age (raw row) ≤ age_max →
     let c := make_candidate ∅ row sim 1
                (ROLE_WEIGHT * sim + SKILL_WEIGHT * 1 + AGE_WEIGHT * 1)%Qc in
     (∀ candidates,
        visit math_exp (_df self) ∅ age_min age_max candidates (idx, sim) =
          Ok (candidates ++ [c])) ∧
     (∀ res,
        search model_encode index_search math_exp self query required_skills
          age_min age_max top_k return_json = Ok res →
        Z.of_nat TOP_K_RAW ≤ top_k →
        length (raw_pool model_encode index_search self query) = TOP_K_RAW →
        c ∈ res)).
Proof.
  split; [|split].
  - intros cand. unfold _skills_match_ratio. by rewrite decide_True.
  - intros cand req Hne Hsub.
    by destruct (skills_match_ratio_subset cand req Hne Hsub).
  - intros Hreq idx sim row Hp Hidx Hrow Hage c.
    assert (survives (_df self) ∅ age_min age_max (idx, sim) c) as Hsurv.
    { exists row, 1%Qc. split; [done|]. split; [done|]. split; [by left|].
      split; [done|]. split; [|done].
      unfold _skills_match_ratio. by rewrite decide_True. }
    split.
    + intros candidates. by apply visit_survivor.
    + intros res Hs Hk Hlen.
      apply search_inv in Hs as (candidates & Hsel & ->).
      rewrite Hreq in Hsel.
      rewrite slice_to_all.
      * apply elem_of_stable_sort. by eapply selected_complete.
      * unfold sort_by_score_desc. rewrite length_stable_sort.
        apply selected_length in Hsel. lia.
Qed.

(** C10. The flag [return_json] does not change what [search] returns. *)
Theorem return_json_irrelevant (flag flag' : bool) :
  search model_encode index_search math_exp self query required_skills
    age_min age_max top_k flag =
  search model_encode index_search math_exp self query required_skills
    age_min age_max top_k flag'.
Proof. reflexivity. Qed.

End Claims.

(** C7. Schema error: loading fails exactly when one of the four required
    columns is absent from the header; the exception is then the
    [ValueError] that carries the set of all the required columns the
    header lacks. *)
Theorem schema_error_complete (df : Sheet) :
  ((∃ e, _load_and_prepare df = Raise e) ↔
   (∃ col, col ∈ required_cols ∧ col ∉ columns df)) ∧
  (∀ e, _load_and_prepare df = Raise e →
     ∃ missing, e = ValueError missing ∧
       ∀ col, col ∈ missing ↔ col ∈ required_cols ∧ col ∉ columns df) ∧
  (∀ col, col ∈ required_cols ↔
     col = "Employee Name" ∨ col = "Employee Skills" ∨
     col = "Employee Age" ∨ col = "Employee Roles & Responsibilities").
Proof.
  assert (∀ col, col ∈ required_cols ∖ list_to_set (C := gset string) (columns df) ↔
                 col ∈ required_cols ∧ col ∉ columns df) as Hmiss.
  { intros col. rewrite elem_of_difference, elem_of_list_to_set. done. }
  split; [|split].
  - unfold _load_and_prepare. case_decide as Hm.
    + split; [intros _ | eauto].
      apply set_choose_L in Hm as [col Hcol]. exists col. by apply Hmiss.
    + split; [by intros [e ?] | intros (col & Hcol)].
      apply Hmiss in Hcol. rewrite Hm in Hcol.
      by apply not_elem_of_empty in Hcol.
  - intros e. unfold _load_and_prepare. case_decide; [|done].
    intros [= <-]. eauto.
  - intros col. unfold required_cols.
    rewrite !elem_of_union, !elem_of_singleton. tauto.
Qed.

(** C9. The skill-match ratio is total and bounded: for all sets it returns
    a value between 0 and 1, the divisor max(|candidate_skills|, 1) is never
    zero, and required keywords that are all present are no more than the
    candidate's skills. *)
Theorem skills_match_ratio_bounded (candidate_skills required_keywords : gset string) :
  (∃ r, _skills_match_ratio candidate_skills required_keywords = Ok r ∧
        (0 ≤ r ≤ 1)%Qc) ∧
  Z.max (Z.of_nat (size candidate_skills)) 1 ≠ 0 ∧
  (required_keywords ⊆ candidate_skills →
   (size required_keywords ≤ size candidate_skills)%nat).
Proof.
  split; [apply skills_match_ratio_total|]. split; [lia|].
  apply subseteq_size.
Qed.

(** * The properties on the scenario *)

Lemma scenario_init : init Scenario.toy_encode Scenario.sheet = Ok Scenario.engine.
Proof. by vm_compute. Qed.

Lemma scenario_pool_well_formed :
  pool_well_formed (length (_df Scenario.engine)) TOP_K_RAW
    (Scenario.flat_ip_search (_embeddings Scenario.engine)
       (Scenario.toy_encode "staff engineer") TOP_K_RAW).
Proof.
  repeat split; [by vm_compute..|].
  apply Forall_forall. intros i Hi.
  vm_compute in Hi. repeat (apply elem_of_cons in Hi as [-> | Hi]; [by vm_compute|]).
  by apply elem_of_nil in Hi.
Defined.

(** The pool of the scenario: Carol's row first (inner product 1), then
    Dana's (the float32 nearest to 0.3), then Bob's (0), then seventeen
    fillers. *)
Lemma scenario_pool :
  (raw_pool Scenario.toy_encode Scenario.flat_ip_search Scenario.engine
     "staff engineer").*1 = [2; 1; 0] ++ replicate 17 (-1) ∧
  this <$> take 3 (raw_pool Scenario.toy_encode Scenario.flat_ip_search
                     Scenario.engine "staff engineer").*2
    = [1%Q; (5033165 # 16777216)%Q; 0%Q].
Proof. split; by vm_compute. Qed.

(** The scenario returns Dana and Bob, both with "python" among their
    skills; Carol, the best match of the text, lacks it. *)
Lemma skill_hard_filter_witness :
  ∃ res, Scenario.run false = Ok res ∧ res ≠ [] ∧
         ∀ c, c ∈ res → "python" ∈ skills c.
Proof.
  eexists. split; [by vm_compute|]. split; [done|].
  intros c Hc.
  edestruct (skill_hard_filter Scenario.toy_encode Scenario.flat_ip_search
               Scenario.toy_exp Scenario.engine "staff engineer"
               (Some [" Python "]) 18 50 5 false) as [Hall _];
    [by vm_compute|].
  destruct (Hall c Hc) as (row & _ & _ & _ & Hkw).
  apply Hkw. by vm_compute.
Defined.

Lemma age_hard_filter_witness :
  ∃ res, Scenario.run false = Ok res ∧ res ≠ [] ∧
         ∀ c, c ∈ res → 18 ≤ age c ≤ 50.
Proof.
  eexists. split; [by vm_compute|]. split; [done|].
  edestruct (age_hard_filter Scenario.toy_encode Scenario.flat_ip_search
               Scenario.toy_exp Scenario.engine "staff engineer"
               (Some [" Python "]) 18 50 5 false) as [Hall _];
    [by vm_compute|].
  exact Hall.
Defined.

Lemma score_formula_witness :
  ∃ res, Scenario.run false = Ok res ∧ res ≠ [] ∧
         (∀ c, c ∈ res →
            ∃ sim skill_ratio,
              score c = (Q2Qc 0.5%Q * sim + Q2Qc 0.3%Q * skill_ratio + Q2Qc 0.2%Q)%Qc) ∧
         search Scenario.toy_encode Scenario.flat_ip_search (λ _, 0%Qc)
           Scenario.engine "staff engineer" (Some [" Python "]) 18 50 5 false
           = Ok res.
Proof.
  eexists. split; [by vm_compute|]. split; [done|].
  edestruct (score_formula Scenario.toy_encode Scenario.flat_ip_search
               Scenario.toy_exp Scenario.engine "staff engineer"
               (Some [" Python "]) 18 50 5 false) as (_ & Hall & Hexp);
    [by vm_compute|].
  split; [|apply Hexp].
  intros c Hc.
  destruct (Hall c Hc) as (idx & sim & row & ratio & _ & _ & _ & _ & _ & _ & Hscore).
  eauto.
Defined.

Lemma result_cap_witness :
  ∃ res, Scenario.run false = Ok res ∧
         Z.of_nat (length res) ≤ 5 ∧ (length res ≤ 20)%nat.
Proof.
  destruct (result_cap Scenario.toy_encode Scenario.flat_ip_search
              Scenario.toy_exp Scenario.engine "staff engineer"
              (Some [" Python "]) 18 50 5 false)
    as (res & Hs & Hk & Hraw & _);
    [lia | exact scenario_pool_well_formed |].
  exists res. split; [exact Hs|]. split; [exact Hk | exact Hraw].
Defined.

(** Without required skills Carol, 60 years old, is returned for the ages
    18 to 70: nothing is dropped on skill grounds. *)
Lemma empty_skills_no_filter_witness :
  ∃ res c,
    search Scenario.toy_encode Scenario.flat_ip_search Scenario.toy_exp
      Scenario.engine "staff engineer" (Some [" "]) 18 70 20 false = Ok res ∧
    c ∈ res ∧ name c = "Carol" ∧ score c = 1%Qc.
Proof.
  edestruct (empty_skills_no_filter Scenario.toy_encode Scenario.flat_ip_search
               Scenario.toy_exp Scenario.engine "staff engineer"
               (Some [" "]) 18 70 20 false) as (_ & _ & Hkeep).
  edestruct (Hkeep eq_refl 2 1%Qc) as [_ Hres];
    [| done | by vm_compute | by vm_compute |].
  { apply list_elem_of_lookup. exists 0%nat. by vm_compute. }
  eexists _, _. split; [by vm_compute|].
  split; [apply Hres; by vm_compute|]. split; [done|].
  by apply Qc_is_canon.
Defined.

(** Scenario D: the sheet without its age column is refused, and the error
    names that column. *)
Lemma schema_error_scenario :
  ∃ missing, _load_and_prepare Scenario.sheet_no_age = Raise (ValueError missing) ∧
             ∀ col, col ∈ missing ↔ col = "Employee Age".
Proof.
  destruct (schema_error_complete Scenario.sheet_no_age) as (_ & Hnames & _).
  destruct (_load_and_prepare Scenario.sheet_no_age) as [rows|e] eqn:Hload;
    [by vm_compute in Hload|].
  destruct (Hnames e eq_refl) as (missing & -> & Hmiss).
  exists missing. split; [done|]. intros col. rewrite Hmiss.
  split.
  - intros [Hreq Hcol]. unfold required_cols in Hreq.
    rewrite !elem_of_union, !elem_of_singleton in Hreq.
    destruct Hreq as [[[-> | ->] | ->] | ->]; [| |reflexivity|];
      exfalso; apply Hcol; cbn; rewrite !elem_of_cons; auto.
  - intros ->. split; [by vm_compute|].
    vm_compute. intros Hin.
    repeat (apply elem_of_cons in Hin as [Hin | Hin]; [discriminate Hin|]).
    by apply elem_of_nil in Hin.
Defined.

(** * The order of the results and determinism *)

(** ** The stable sort, for an order on part of the elements *)

Section StableSortOn.
Context {A : Type} (before : A → A → bool) (P : A → Prop).
Implicit Types (l : list A) (a b x : A).

Hypothesis before_asym : ∀ a b, before a b = true → before b a = false.
Hypothesis before_negtrans :
  ∀ a b c, P a → P b → P c →
    before b a = false → before c b = false → before c a = false.

Lemma insert_StronglySorted_on x l :
  P x → Forall P l →
  StronglySorted (λ a b, before b a = false) l →
  StronglySorted (λ a b, before b a = false) (Py.insert before x l).
Proof.
  intros Hx HP. induction 1 as [|y l Hl IH Hy]; simpl.
  - repeat constructor.
  - apply Forall_cons in HP as [HPy HP].
    destruct (before y x) eqn:Hyx.
    + constructor; [by apply IH|].
      apply Forall_forall. intros z Hz.
      rewrite insert_Permutation in Hz. apply elem_of_cons in Hz as [-> | Hz].
      * by apply before_asym.
      * by eapply Forall_forall in Hy.
    + constructor; [by constructor|].
      constructor; [done|].
      apply Forall_forall. intros z Hz.
      apply (before_negtrans x y z); [done | done | | done |].
      * by eapply Forall_forall in HP.
      * by eapply Forall_forall in Hy.
Qed.

Lemma stable_sort_StronglySorted_on l :
  Forall P l →
  StronglySorted (λ a b, before b a = false) (Py.stable_sort before l).
Proof.
  induction 1 as [|x l Hx HP IH]; simpl; [constructor|].
  apply insert_StronglySorted_on; [done | | done].
  by rewrite stable_sort_Permutation.
Qed.
End StableSortOn.

(** ** Comparisons of binary64 numbers *)

Lemma SFcompare_antisym x y c :
  SFcompare x y = Some c → SFcompare y x = Some (CompOpp c).
Proof.
  destruct x as [sx|sx| |sx mx ex], y as [sy|sy| |sy my ey]; simpl;
    try discriminate; try (intros [= <-]; by destruct sx, sy);
    try (intros [= <-]; by destruct sx); try (intros [= <-]; by destruct sy).
  intros [= <-]. f_equal.
  assert ((ey ?= ex) = CompOpp (ex ?= ey)) as -> by apply Z.compare_antisym.
  assert (Pos.compare_cont Eq my mx = CompOpp (Pos.compare_cont Eq mx my)) as ->
    by (symmetry; apply (Pos.compare_cont_antisym mx my Eq)).
  destruct sx, sy; simpl; try done; destruct (ex ?= ey); simpl; try done.
Qed.

Lemma SFleb_trans x y z :
  SFleb x y = true → SFleb y z = true → SFleb x z = true.
Proof.
  unfold SFleb.
  destruct x as [sx|sx| |sx mx ex], y as [sy|sy| |sy my ey],
           z as [sz|sz| |sz mz ez]; simpl; try done;
    try (by destruct sx, sy, sz); try (by destruct sx, sy);
    try (by destruct sy, sz); try (by destruct sx, sz).
  destruct sx, sy, sz; try done.
  - destruct (Z.compare_spec ex ey), (Z.compare_spec ey ez), (Z.compare_spec ex ez);
      try done; try lia; subst.
    all: rewrite <- ?Pos.compare_cont_spec; simpl.
    all: fold (Pos.compare mx my); fold (Pos.compare my mz); fold (Pos.compare mx mz).
    all: destruct (Pos.compare_spec mx my), (Pos.compare_spec my mz), (Pos.compare_spec mx mz); simpl; try done; try lia.
  - destruct (Z.compare_spec ex ey), (Z.compare_spec ey ez), (Z.compare_spec ex ez);
      try done; try lia; subst.
    all: fold (Pos.compare mx my); fold (Pos.compare my mz); fold (Pos.compare mx mz).
    all: destruct (Pos.compare_spec mx my), (Pos.compare_spec my mz), (Pos.compare_spec mx mz); simpl; try done; try lia.
Qed.

Lemma SFcompare_None x y :
  SFcompare x y = None ↔ x = S754_nan ∨ y = S754_nan.
Proof.
  destruct x as [sx|sx| |sx mx ex], y as [sy|sy| |sy my ey]; simpl;
    split; try done; try (intros [H | H]; discriminate H); auto.
Qed.

Lemma is_nan_Prim2SF (x : float) : is_nan x = false ↔ Prim2SF x ≠ S754_nan.
Proof.
  unfold is_nan. rewrite FloatAxioms.eqb_spec. unfold SFeqb.
  destruct (Prim2SF x) as [s|s| |s m e]; simpl; try done.
  - by destruct s.
  - destruct s; by rewrite Z.compare_refl, Pos.compare_cont_refl.
Qed.

Lemma float_ltb_asym (x y : float) : (x <? y)%float = true → (y <? x)%float = false.
Proof.
  rewrite !FloatAxioms.ltb_spec. unfold SFltb.
  destruct (SFcompare (Prim2SF x) (Prim2SF y)) as [c|] eqn:Hc; [|done].
  rewrite (SFcompare_antisym _ _ _ Hc). by destruct c.
Qed.

Lemma float_eqb_ltb (x y : float) : (x =? y)%float = true → (y <? x)%float = false.
Proof.
  rewrite FloatAxioms.eqb_spec, FloatAxioms.ltb_spec. unfold SFeqb, SFltb.
  destruct (SFcompare (Prim2SF x) (Prim2SF y)) as [c|] eqn:Hc; [|done].
  rewrite (SFcompare_antisym _ _ _ Hc). by destruct c.
Qed.

Lemma float_ltb_false_leb (x y : float) :
  is_nan x = false → is_nan y = false →
  (x <? y)%float = false ↔ (y <=? x)%float = true.
Proof.
  rewrite !is_nan_Prim2SF, FloatAxioms.ltb_spec, FloatAxioms.leb_spec. unfold SFltb, SFleb.
  intros Hx Hy.
  destruct (SFcompare (Prim2SF x) (Prim2SF y)) as [c|] eqn:Hc.
  - rewrite (SFcompare_antisym _ _ _ Hc). by destruct c.
  - apply SFcompare_None in Hc as [? | ?]; done.
Qed.

Lemma float_leb_trans (x y z : float) :
  (x <=? y)%float = true → (y <=? z)%float = true → (x <=? z)%float = true.
Proof. rewrite !FloatAxioms.leb_spec. apply SFleb_trans. Qed.

Lemma float_ltb_negtrans (x y z : float) :
  is_nan x = false → is_nan y = false → is_nan z = false →
  (x <? y)%float = false → (y <? z)%float = false → (x <? z)%float = false.
Proof.
  intros Hx Hy Hz Hxy Hyz.
  apply float_ltb_false_leb in Hxy, Hyz; try done.
  apply float_ltb_false_leb; try done. by eapply float_leb_trans.
Qed.

(** ** The loop and the sort on binary64 scores *)

Lemma runtime_age_score_in_range math_exp (a lo hi : Z) :
  lo ≤ a ≤ hi → Runtime._age_score math_exp a lo hi = Ok 1%float.
Proof. intros H. unfold Runtime._age_score. by rewrite decide_True. Qed.

Lemma runtime_skills_match_ratio_total (cand req : gset string) :
  ∃ r, Runtime._skills_match_ratio cand req = Ok r.
Proof.
  unfold Runtime._skills_match_ratio, Runtime.truediv.
  repeat case_decide; eauto. lia.
Qed.

Section RuntimeLoopFacts.

Variable set_order : gset string → list string.
Variable math_exp : float → float.
Variables (df : list Row) (req : gset string) (lo hi : Z).

Lemma runtime_survives_functional p c c' :
  Runtime.survives set_order df req lo hi p c →
  Runtime.survives set_order df req lo hi p c' → c = c'.
Proof.
  intros (row & ratio & _ & Hrow & _ & _ & Hratio & ->)
         (row' & ratio' & _ & Hrow' & _ & _ & Hratio' & ->).
  rewrite Hrow in Hrow'. injection Hrow' as <-.
  rewrite Hratio in Hratio'. by injection Hratio' as <-.
Qed.

(** A turn of the loop that raises nothing either leaves the list as it
    is, for an entry that does not survive, or appends the dictionary of a
    surviving entry. *)
Lemma runtime_visit_inv acc p acc' :
  Runtime.visit set_order math_exp df req lo hi acc p = Ok acc' →
  (acc' = acc ∧ ∀ c, ¬ Runtime.survives set_order df req lo hi p c) ∨
  (∃ c, Runtime.survives set_order df req lo hi p c ∧ acc' = acc ++ [c]).
Proof.
  destruct p as [idx sim]. unfold Runtime.visit.
  destruct (decide (idx = -1)) as [Hidx | Hidx].
  { intros [= <-]. left. split; [done|].
    intros c (row & ratio & Hne & _). done. }
  destruct (iloc df idx) as [row|e] eqn:Hrow; simpl; [|done].
  destruct (decide (req ≠ ∅ ∧ ¬ req ⊆ skill_set row)) as [Hskip | Hkeep].
  { intros [= <-]. left. split; [done|].
    intros c (row' & ratio & _ & Hrow' & Hsk & _). simpl in Hrow'.
    rewrite Hrow in Hrow'. injection Hrow' as <-.
    destruct Hskip as [Hne Hsub]. destruct Hsk; done. }
  destruct (runtime_skills_match_ratio_total (skill_set row) req) as (ratio & Hratio).
  rewrite Hratio. simpl.
  destruct (Runtime._age_score math_exp (Employee_Age (raw row)) lo hi)
    as [age_s|e] eqn:Hage_s; simpl; [|done].
  destruct (decide (¬ lo ≤ Employee_Age (raw row) ≤ hi)) as [Hout | Hin].
  { intros [= <-]. left. split; [done|].
    intros c (row' & ratio' & _ & Hrow' & _ & Hage & _). simpl in Hrow'.
    rewrite Hrow in Hrow'. injection Hrow' as <-. done. }
  assert (lo ≤ Employee_Age (raw row) ≤ hi) as Hage by lia.
  rewrite (runtime_age_score_in_range _ _ _ _ Hage) in Hage_s.
  injection Hage_s as <-.
  intros [= <-]. right. eexists. split; [|reflexivity].
  exists row, ratio.
  repeat split; try done; try lia.
  destruct (decide (req = ∅)); [by left | right].
  destruct (decide (req ⊆ skill_set row)); [done | tauto].
Qed.

Lemma runtime_loop_inv pool : ∀ acc res,
  Runtime.loop set_order math_exp df req lo hi acc pool = Ok res →
  ∃ new, res = acc ++ new ∧ Runtime.selected set_order df req lo hi pool new.
Proof.
  induction pool as [|p pool IH]; simpl; intros acc res.
  - intros [= <-]. exists []. split; [by rewrite app_nil_r | constructor].
  - destruct (Runtime.visit set_order math_exp df req lo hi acc p)
      as [acc'|e] eqn:Hv; [|done].
    simpl. intros Hl. destruct (IH _ _ Hl) as (new & -> & Hsel).
    apply runtime_visit_inv in Hv as [[-> Hno] | (c & Hs & ->)].
    + exists new. split; [done | by constructor].
    + exists (c :: new). split; [by rewrite <- app_assoc | by constructor].
Qed.

Lemma runtime_selected_elem_of pool new c :
  Runtime.selected set_order df req lo hi pool new → c ∈ new →
  ∃ p, p ∈ pool ∧ Runtime.survives set_order df req lo hi p c.
Proof.
  induction 1 as [|p pool new _ _ IH | p c' pool new Hs _ IH]; intros Hc.
  - by apply elem_of_nil in Hc.
  - destruct (IH Hc) as (q & ? & ?). exists q. split; [by right | done].
  - apply elem_of_cons in Hc as [-> | Hc].
    + exists p. split; [by left | done].
    + destruct (IH Hc) as (q & ? & ?). exists q. split; [by right | done].
Qed.

(** The dictionaries are appended in the order of the pool. *)
Lemma runtime_selected_precedes pool new a b :
  Runtime.selected set_order df req lo hi pool new → precedes new a b →
  ∃ pa pb, precedes pool pa pb ∧
           Runtime.survives set_order df req lo hi pa a ∧
           Runtime.survives set_order df req lo hi pb b.
Proof.
  induction 1 as [|p pool new _ Hsel IH | p c pool new Hs Hsel IH]; intros Hab.
  - by apply precedes_nil in Hab.
  - destruct (IH Hab) as (pa & pb & ? & ? & ?).
    exists pa, pb. split; [by apply precedes_later | done].
  - apply precedes_cons_inv in Hab as [[-> Hb] | Hab].
    + destruct (runtime_selected_elem_of _ _ _ Hsel Hb) as (pb & ? & ?).
      exists p, pb. split; [by apply precedes_here | done].
    + destruct (IH Hab) as (pa & pb & ? & ? & ?).
      exists pa, pb. split; [by apply precedes_later | done].
Qed.

End RuntimeLoopFacts.

(** Sorted: a candidate is never followed by one with a greater score. *)
Lemma runtime_sort_sorted (candidates : list Runtime.Candidate) :
  Runtime.scores_are_numbers candidates →
  StronglySorted (λ c d, (Runtime.score d <=? Runtime.score c)%float = true)
    (Runtime.sort_by_score_desc candidates).
Proof.
  intros Hnum. unfold Runtime.sort_by_score_desc.
  assert (Forall (λ c, is_nan (Runtime.score c) = false)
            (Py.stable_sort (λ c d, (Runtime.score d <? Runtime.score c)%float)
               candidates)) as Hnum'.
  { unfold Runtime.scores_are_numbers in Hnum. by rewrite stable_sort_Permutation. }
  pose proof (stable_sort_StronglySorted_on
                (λ c d, (Runtime.score d <? Runtime.score c)%float)
                (λ c, is_nan (Runtime.score c) = false)) as Hsorted.
  revert Hnum'. generalize (Hsorted
    ltac:(intros a b; apply float_ltb_asym)
    ltac:(intros a b c Ha Hb Hc; by apply float_ltb_negtrans)
    candidates Hnum).
  generalize (Py.stable_sort (λ c d, (Runtime.score d <? Runtime.score c)%float)
                candidates).
  clear. intros l. induction 1 as [|x l _ IH Hx]; intros Hnum; [constructor|].
  apply Forall_cons in Hnum as [Hnx Hnum]. constructor; [by apply IH|].
  apply Forall_forall. intros y Hy.
  eapply Forall_forall in Hx; [|exact Hy]. eapply Forall_forall in Hnum; [|exact Hy].
  simpl in Hx. by apply float_ltb_false_leb.
Qed.

(** Stable: candidates of equal score come out in the order they went
    in. *)
Lemma runtime_sort_stable (candidates : list Runtime.Candidate) c d :
  precedes (Runtime.sort_by_score_desc candidates) c d →
  (Runtime.score c =? Runtime.score d)%float = true →
  precedes candidates c d.
Proof.
  intros Hcd Heq. apply stable_sort_precedes in Hcd as [Hcd | Hcd]; [done|].
  simpl in Hcd. apply float_eqb_ltb in Heq. congruence.
Qed.

(** The sorted list does not depend on the order of iteration. *)
Lemma runtime_sorted_order (set_order set_order' : gset string → list string)
    (s : gset string) :
  Runtime.iteration_order set_order → Runtime.iteration_order set_order' →
  Runtime.sorted set_order s = Runtime.sorted set_order' s.
Proof.
  intros Ho Ho'. unfold Runtime.sorted.
  assert (AntiSymm (=) (λ a b : string, String.ltb b a = false)) as Hanti.
  { intros a b Hab Hba. destruct (decide (a = b)) as [|Hne]; [done|].
    apply (ltb_total a b) in Hne; [congruence | done]. }
  apply (StronglySorted_unique (λ a b : string, String.ltb b a = false)).
  - apply stable_sort_StronglySorted; [apply ltb_asym | apply ltb_negtrans].
  - apply stable_sort_StronglySorted; [apply ltb_asym | apply ltb_negtrans].
  - etrans; [apply stable_sort_Permutation|].
    etrans; [apply (Ho s)|]. symmetry.
    etrans; [apply stable_sort_Permutation | apply (Ho' s)].
Qed.

Section RuntimeSearchFacts.

Context {Embedding : Type}.
Variable set_order : gset string → list string.
Variable model_encode : string → Embedding.
Variable index_search : list Embedding → Embedding → nat → list float * list Z.
Variable math_exp : float → float.
Variable self : EmployeeSearchEngine Embedding.
Variables (query : string) (required_skills : option (list string)).
Variables (age_min age_max top_k : Z) (return_json : bool).

Lemma runtime_search_unfold :
  Runtime.search set_order model_encode index_search math_exp self query
    required_skills age_min age_max top_k return_json =
  candidates ← Runtime.loop set_order math_exp (_df self)
                 (normalise_keywords (default [] required_skills))
                 age_min age_max [] (Runtime.raw_pool model_encode index_search self query);
  mret (Py.slice_to (Runtime.sort_by_score_desc candidates) top_k).
Proof.
  unfold Runtime.search, Runtime.raw_pool.
  by destruct (index_search _ _ _) as [D0 I0].
Qed.

(** What [search] returns: the survivors of the pool, listed in the order
    of the pool, sorted and cut. *)
Lemma runtime_search_inv res :
  Runtime.search set_order model_encode index_search math_exp self query
    required_skills age_min age_max top_k return_json = Ok res →
  ∃ candidates,
    Runtime.selected set_order (_df self)
      (normalise_keywords (default [] required_skills)) age_min age_max
      (Runtime.raw_pool model_encode index_search self query) candidates ∧
    res = Py.slice_to (Runtime.sort_by_score_desc candidates) top_k.
Proof.
  rewrite runtime_search_unfold.
  destruct (Runtime.loop _ _ _ _ _ _ _ _) as [candidates|e] eqn:Hl; [|done].
  intros [= <-]. apply runtime_loop_inv in Hl as (new & -> & Hsel).
  by exists new.
Qed.

End RuntimeSearchFacts.

Lemma runtime_visit_order (set_order set_order' : gset string → list string)
    math_exp df req lo hi acc p :
  Runtime.iteration_order set_order → Runtime.iteration_order set_order' →
  Runtime.visit set_order math_exp df req lo hi acc p =
  Runtime.visit set_order' math_exp df req lo hi acc p.
Proof.
  intros Ho Ho'. destruct p as [idx sim]. unfold Runtime.visit.
  destruct (decide (idx = -1)); [done|].
  destruct (iloc df idx) as [row|e]; simpl; [|done].
  destruct (decide _); [done|].
  destruct (Runtime._skills_match_ratio _ _) as [ratio|e]; simpl; [|done].
  destruct (Runtime._age_score _ _ _ _) as [age_s|e]; simpl; [|done].
  destruct (decide _); [done|].
  unfold Runtime.make_candidate.
  by rewrite (runtime_sorted_order set_order set_order').
Qed.

Lemma runtime_loop_order (set_order set_order' : gset string → list string)
    math_exp df req lo hi pool :
  Runtime.iteration_order set_order → Runtime.iteration_order set_order' →
  ∀ acc, Runtime.loop set_order math_exp df req lo hi acc pool =
         Runtime.loop set_order' math_exp df req lo hi acc pool.
Proof.
  intros Ho Ho'. induction pool as [|p pool IH]; simpl; intros acc; [done|].
  rewrite (runtime_visit_order set_order set_order') by done.
  destruct (Runtime.visit set_order' math_exp df req lo hi acc p); simpl;
    [apply IH | done].
Qed.

Section RuntimeClaims.

Context {Embedding : Type}.
Variable set_order : gset string → list string.
Variable model_encode : string → Embedding.
Variable index_search : list Embedding → Embedding → nat → list float * list Z.
Variable math_exp : float → float.
Variable self : EmployeeSearchEngine Embedding.
Variables (query : string) (required_skills : option (list string)).
Variables (age_min age_max top_k : Z) (return_json : bool).

(** C4, as the code has it. When no score computed for a candidate is NaN,
    the returned list is sorted by score, greatest first: a candidate is
    never followed by one with a greater score. Two returned candidates of
    equal score stand in the order in which the vector index returned
    their pool entries (the sort is stable), which need not be the order
    of their rows in the dataset. *)
Theorem ranking_order (res : list Runtime.Candidate) :
  Runtime.search set_order model_encode index_search math_exp self query
    required_skills age_min age_max top_k return_json = Ok res →
  (∀ candidates,
     Runtime.loop set_order math_exp (_df self)
       (normalise_keywords (default [] required_skills)) age_min age_max []
       (Runtime.raw_pool model_encode index_search self query) = Ok candidates →
     Runtime.scores_are_numbers candidates) →
  ∀ (i j : nat) ci cj,
    (i < j)%nat → res !! i = Some ci → res !! j = Some cj →
    (Runtime.score cj <=? Runtime.score ci)%float = true ∧
    ((Runtime.score ci =? Runtime.score cj)%float = true →
     ∃ (pi pj : nat) p q,
       (pi < pj)%nat ∧
       Runtime.raw_pool model_encode index_search self query !! pi = Some p ∧
       Runtime.raw_pool model_encode index_search self query !! pj = Some q ∧
       Runtime.survives set_order (_df self)
         (normalise_keywords (default [] required_skills)) age_min age_max p ci ∧
       Runtime.survives set_order (_df self)
         (normalise_keywords (default [] required_skills)) age_min age_max q cj).
Proof.
  rewrite runtime_search_unfold.
  destruct (Runtime.loop _ _ _ _ _ _ _ _) as [candidates|e] eqn:Hl; [|done].
  intros [= <-] Hnum i j ci cj Hij Hi Hj.
  specialize (Hnum candidates eq_refl).
  apply runtime_loop_inv in Hl as (new & -> & Hsel). simpl in *.
  destruct (slice_to_take (Runtime.sort_by_score_desc new) top_k) as [n Hn].
  rewrite Hn in Hi, Hj.
  assert (precedes (Runtime.sort_by_score_desc new) ci cj) as Hpre.
  { apply (precedes_take n). apply precedes_lookup. eauto. }
  split.
  - by apply (StronglySorted_precedes _ _ _ _ (runtime_sort_sorted new Hnum)).
  - intros Heq.
    apply runtime_sort_stable in Hpre; [|done].
    destruct (runtime_selected_precedes _ _ _ _ _ _ _ _ _ Hsel Hpre)
      as (p & q & Hpq & Hp & Hq).
    apply precedes_lookup in Hpq as (pi & pj & ? & ? & ?).
    by exists pi, pj, p, q.
Qed.

(** C6. Determinism: two runs on the same engine with the same arguments
    return the same list (same candidates, same scores, same order) when
    their encoders give the same vector for the query text, whatever the
    orders in which the two interpreters iterate the sets of skills. The
    list they return is made of the dictionaries of the pool entries that
    pass the filters, taken in the order of the pool, sorted by score and
    cut to [top_k]. *)
Theorem search_deterministic (set_order' : gset string → list string)
    (encode_again : string → Embedding) :
  Runtime.iteration_order set_order → Runtime.iteration_order set_order' →
  model_encode query = encode_again query →
  Runtime.search set_order model_encode index_search math_exp self query
    required_skills age_min age_max top_k return_json =
  Runtime.search set_order' encode_again index_search math_exp self query
    required_skills age_min age_max top_k return_json ∧
  ∀ res,
    Runtime.search set_order' encode_again index_search math_exp self query
      required_skills age_min age_max top_k return_json = Ok res →
    ∃ candidates,
      Runtime.selected set_order (_df self)
        (normalise_keywords (default [] required_skills)) age_min age_max
        (Runtime.raw_pool model_encode index_search self query) candidates ∧
      res = Py.slice_to (Runtime.sort_by_score_desc candidates) top_k.
Proof.
  intros Ho Ho' Henc.
  assert (Runtime.search set_order model_encode index_search math_exp self query
            required_skills age_min age_max top_k return_json =
          Runtime.search set_order' encode_again index_search math_exp self query
            required_skills age_min age_max top_k return_json) as Heq.
  { rewrite !runtime_search_unfold.
    unfold Runtime.raw_pool. rewrite <- Henc.
    by rewrite (runtime_loop_order set_order set_order'). }
  split; [done|]. intros res Hres. rewrite <- Heq in Hres.
  by apply runtime_search_inv in Hres.
Qed.

End RuntimeClaims.

(** * The order of the results and determinism, on the scenario *)

(** The pool of the scenario: Carol's row first (inner product 1), then
    Dana's (the float32 nearest to 0.3), then Bob's (about 1.19e-8), then
    seventeen fillers. *)
Lemma runtime_scenario_pool :
  take 3 (Runtime.raw_pool RuntimeScenario.toy_encode RuntimeScenario.flat_ip_search
            RuntimeScenario.engine "staff engineer")
  = [(2, 1%float); (1, 0x1.333334p-2%float); (0, 0x1.99999ap-27%float)].
Proof. by vm_compute. Qed.

Lemma ranking_order_witness :
  ∃ res, RuntimeScenario.run = Ok res ∧ res ≠ [] ∧
         ∀ (i j : nat) ci cj,
           (i < j)%nat → res !! i = Some ci → res !! j = Some cj →
           (Runtime.score cj <=? Runtime.score ci)%float = true.
Proof.
  eexists. split; [by vm_compute|]. split; [done|].
  intros i j ci cj Hij Hi Hj.
  edestruct (ranking_order RuntimeScenario.set_order RuntimeScenario.toy_encode
               RuntimeScenario.flat_ip_search RuntimeScenario.toy_exp
               RuntimeScenario.engine "staff engineer"
               (Some [" Python "]) 18 50 5 false) as [Hle _];
    [by vm_compute | | exact Hij | exact Hi | exact Hj | exact Hle].
  intros candidates Hl. vm_compute in Hl. injection Hl as <-.
  repeat constructor.
Defined.

(** C4, as stated, fails on the scenario. Dana's row has inner product
    0x1.333334p-2 with the query and half of her skills are required;
    Bob's row has inner product 0x1.99999ap-27 and his one skill is
    required. In binary64 both scores, 0.5 * sim + 0.3 * ratio + 0.2 * 1.0,
    are the same number 0x1.0000003333334p-1; Dana, whose text is closer to
    the query, is returned first, and she is the row after Bob's. *)
Lemma ties_not_in_row_order :
  ∃ res, RuntimeScenario.run = Ok res ∧
         Runtime.name <$> res = ["Dana"; "Bob"] ∧
         Runtime.score <$> res = [0x1.0000003333334p-1; 0x1.0000003333334p-1]%float ∧
         ¬ Runtime.ties_in_row_order RuntimeScenario.set_order
             (_df RuntimeScenario.engine) res.
Proof.
  eexists. split; [by vm_compute|]. split; [done|]. split; [done|].
  intros Hties.
  edestruct (Hties 0%nat 1%nat) as (ri & rj & rowi & rowj & Hi & Hj & Di & Dj & Hlt);
    [lia | reflexivity | reflexivity | by vm_compute |].
  destruct Di as [Di _], Dj as [Dj _]. simpl in Di, Dj.
  destruct ri as [|[|ri]]; vm_compute in Hi;
    [injection Hi as <-; discriminate Di | |].
  - destruct rj as [|[|[|rj]]]; vm_compute in Hj; try lia;
      [injection Hj as <-; discriminate Dj | discriminate Hj].
  - destruct ri; [|discriminate Hi].
    destruct rj as [|[|[|rj]]]; vm_compute in Hj; try lia; discriminate Hj.
Qed.

(** Two runs that iterate the skills of Dana's row in opposite orders, and
    whose encoders agree on the query text and on nothing else. *)
Lemma search_deterministic_witness :
  RuntimeScenario.set_order {[ "python"; "sql" ]} ≠
    RuntimeScenario.set_order' {[ "python"; "sql" ]} ∧
  RuntimeScenario.run =
    Runtime.search RuntimeScenario.set_order' (λ _, [1; 0; 0; 0]%float)
      RuntimeScenario.flat_ip_search RuntimeScenario.toy_exp
      RuntimeScenario.engine "staff engineer" (Some [" Python "]) 18 50 5 false.
Proof.
  split; [intros H; by vm_compute in H|].
  apply (search_deterministic RuntimeScenario.set_order RuntimeScenario.toy_encode).
  - intros s. reflexivity.
  - intros s. apply reverse_Permutation.
  - reflexivity.
Defined.

(** * Further properties of the code *)

(** ** Trimming and lowercasing *)

Lemma isspace_lower_char (c : ascii) : Py.isspace (Py.lower_char c) = Py.isspace c.
Proof. by destruct c as [[] [] [] [] [] [] [] []]. Qed.

Lemma lower_char_idemp (c : ascii) : Py.lower_char (Py.lower_char c) = Py.lower_char c.
Proof. by destruct c as [[] [] [] [] [] [] [] []]. Qed.

Lemma lower_char_comma (c : ascii) : Py.lower_char c = ","%char → c = ","%char.
Proof. by destruct c as [[] [] [] [] [] [] [] []]. Qed.

Lemma lower_idemp (s : string) : Py.lower (Py.lower s) = Py.lower s.
Proof. induction s as [|c s IH]; simpl; [done|]. by rewrite lower_char_idemp, IH. Qed.

Lemma truthy_lower (s : string) : Py.truthy (Py.lower s) = Py.truthy s.
Proof. by destruct s. Qed.

Lemma lstrip_lower (s : string) : Py.lstrip (Py.lower s) = Py.lower (Py.lstrip s).
Proof.
  induction s as [|c s IH]; simpl; [done|].
  rewrite isspace_lower_char. by destruct (Py.isspace c).
Qed.

Lemma rstrip_lower (s : string) : Py.rstrip (Py.lower s) = Py.lower (Py.rstrip s).
Proof.
  induction s as [|c s IH]; simpl; [done|].
  rewrite IH, isspace_lower_char.
  destruct (Py.rstrip s); simpl; [by destruct (Py.isspace c) | done].
Qed.

Lemma strip_lower (s : string) : Py.strip (Py.lower s) = Py.lower (Py.strip s).
Proof. unfold Py.strip. by rewrite lstrip_lower, rstrip_lower. Qed.

Lemma rstrip_idemp (s : string) : Py.rstrip (Py.rstrip s) = Py.rstrip s.
Proof.
  induction s as [|c s IH]; simpl; [done|].
  destruct (Py.rstrip s) as [|d r] eqn:Hr.
  - destruct (Py.isspace c) eqn:Hc; simpl; [done|]. by rewrite Hc.
  - simpl in *. by rewrite IH.
Qed.

(** What [rstrip] leaves starts as the string did. *)
Lemma rstrip_head (s : string) c r :
  Py.rstrip s = String c r → ∃ s', s = String c s'.
Proof.
  destruct s as [|d s]; simpl; [done|].
  destruct (Py.rstrip s); [destruct (Py.isspace d)|]; intros [= <- <-]; eauto.
Qed.

Lemma lstrip_head (s : string) c r :
  Py.lstrip s = String c r → Py.isspace c = false.
Proof.
  induction s as [|d s IH]; simpl; [done|].
  destruct (Py.isspace d) eqn:Hd; [done|]. by intros [= <- <-].
Qed.

Lemma strip_idemp (s : string) : Py.strip (Py.strip s) = Py.strip s.
Proof.
  unfold Py.strip.
  destruct (Py.rstrip (Py.lstrip s)) as [|c r] eqn:Hr; [done|].
  destruct (rstrip_head _ _ _ Hr) as [s' Hs'].
  apply lstrip_head in Hs'.
  simpl Py.lstrip. rewrite Hs'. rewrite <- Hr. apply rstrip_idemp.
Qed.

Lemma string_has_lstrip c (s : string) :
  string_has c (Py.lstrip s) = true → string_has c s = true.
Proof.
  induction s as [|d s IH]; simpl; [done|].
  destruct (Py.isspace d); simpl; [|done].
  intros H. rewrite (IH H). by rewrite orb_true_r.
Qed.

Lemma string_has_rstrip c (s : string) :
  string_has c (Py.rstrip s) = true → string_has c s = true.
Proof.
  induction s as [|d s IH]; simpl; [done|].
  destruct (Py.rstrip s) as [|e r].
  - destruct (Py.isspace d); simpl; [done|].
    rewrite orb_false_r. by intros ->.
  - simpl in *. destruct (Ascii.eqb d c); simpl; [done|]. apply IH.
Qed.

Lemma string_has_strip c (s : string) :
  string_has c (Py.strip s) = true → string_has c s = true.
Proof. intros H. by apply string_has_lstrip, string_has_rstrip. Qed.

Lemma string_has_lower_comma (s : string) :
  string_has "," (Py.lower s) = true → string_has "," s = true.
Proof.
  induction s as [|d s IH]; simpl; [done|].
  intros [H | H]%orb_true_iff.
  - apply Ascii.eqb_eq, lower_char_comma in H as ->. done.
  - rewrite (IH H). by rewrite orb_true_r.
Qed.

(** The pieces of [split] do not hold the separator. *)
Lemma split_no_separator sep (s w : string) :
  w ∈ Py.split sep s → string_has sep w = false.
Proof.
  revert w. induction s as [|c s IH]; simpl; intros w Hw.
  - apply list_elem_of_singleton in Hw as ->. done.
  - destruct (Ascii.eqb c sep) eqn:Hc.
    + apply elem_of_cons in Hw as [-> | Hw]; [done | auto].
    + destruct (Py.split sep s) as [|v vs].
      * apply list_elem_of_singleton in Hw as ->. simpl. by rewrite Hc.
      * apply elem_of_cons in Hw as [-> | Hw].
        -- simpl. rewrite Hc. simpl. apply IH. by left.
        -- apply IH. by right.
Qed.

(** ** Keywords *)

Lemma elem_of_normalise_keywords (ks : list string) (kw : string) :
  kw ∈ normalise_keywords ks ↔
  ∃ k, k ∈ ks ∧ Py.strip k ≠ "" ∧ kw = Py.lower (Py.strip k).
Proof.
  unfold normalise_keywords. rewrite elem_of_list_to_set, list_elem_of_fmap.
  split.
  - intros (k & -> & Hk). apply list_elem_of_filter in Hk as [Ht Hk].
    exists k. split; [done|]. split; [|done]. intros Hs. by rewrite Hs in Ht.
  - intros (k & Hk & Hne & ->). exists k. split; [done|].
    apply list_elem_of_filter. split; [|done]. by destruct (Py.strip k).
Qed.

Lemma normalise_keywords_normal (ks : list string) (kw : string) :
  kw ∈ normalise_keywords ks →
  kw ≠ "" ∧ Py.strip kw = kw ∧ Py.lower kw = kw ∧
  (Forall (λ k, string_has "," k = false) ks → string_has "," kw = false).
Proof.
  intros (k & Hk & Hne & ->)%elem_of_normalise_keywords.
  split; [|split; [|split]].
  - intros Hl. apply Hne. destruct (Py.strip k); [done | discriminate Hl].
  - by rewrite strip_lower, strip_idemp.
  - apply lower_idemp.
  - intros Hks. eapply Forall_forall in Hks; [|exact Hk].
    destruct (string_has "," (Py.lower (Py.strip k))) eqn:Hc; [|done].
    apply string_has_lower_comma, string_has_strip in Hc. congruence.
Qed.

Lemma normalise_keywords_cons (k : string) (ks : list string) :
  normalise_keywords (k :: ks) =
  (if decide (Py.strip k = "") then ∅ else {[ Py.lower (Py.strip k) ]})
    ∪ normalise_keywords ks.
Proof.
  apply set_eq. intros kw. rewrite elem_of_union, !elem_of_normalise_keywords.
  split.
  - intros (k' & [-> | Hk']%elem_of_cons & Hne & ->).
    + left. rewrite decide_False by done. by apply elem_of_singleton.
    + right. eauto.
  - intros [Hkw | (k' & Hk' & Hne & ->)].
    + destruct (decide (Py.strip k = "")) as [|Hne]; [by apply elem_of_empty in Hkw|].
      apply elem_of_singleton in Hkw as ->. exists k. split; [by left | done].
    + exists k'. split; [by right | done].
Qed.

(** On ASCII text the functions above stay within ASCII. *)
Lemma isascii_lower (s : string) : Py.isascii (Py.lower s) = Py.isascii s.
Proof.
  induction s as [|c s IH]; simpl; [done|]. rewrite IH. f_equal.
  by destruct c as [[] [] [] [] [] [] [] []].
Qed.

Lemma isascii_lstrip (s : string) :
  Py.isascii s = true → Py.isascii (Py.lstrip s) = true.
Proof.
  induction s as [|c s IH]; simpl; [done|].
  intros [Hc Hs]%andb_true_iff.
  destruct (Py.isspace c); [auto|]. simpl. by rewrite Hc, Hs.
Qed.

Lemma isascii_rstrip (s : string) :
  Py.isascii s = true → Py.isascii (Py.rstrip s) = true.
Proof.
  induction s as [|c s IH]; simpl; [done|].
  intros [Hc Hs]%andb_true_iff. specialize (IH Hs).
  destruct (Py.rstrip s) as [|d r].
  - destruct (Py.isspace c); simpl; [done|]. by rewrite Hc.
  - change (Py.isascii (String c (String d r))) with
      ((nat_of_ascii c <? 128)%nat && Py.isascii (String d r)).
    by rewrite Hc, IH.
Qed.

Lemma isascii_strip (s : string) :
  Py.isascii s = true → Py.isascii (Py.strip s) = true.
Proof. intros H. by apply isascii_rstrip, isascii_lstrip. Qed.

Lemma isascii_split sep (s w : string) :
  Py.isascii s = true → w ∈ Py.split sep s → Py.isascii w = true.
Proof.
  revert w. induction s as [|c s IH]; simpl; intros w Hs Hw.
  - by apply list_elem_of_singleton in Hw as ->.
  - apply andb_true_iff in Hs as [Hc Hs].
    destruct (Ascii.eqb c sep).
    + apply elem_of_cons in Hw as [-> | Hw]; [done | auto].
    + destruct (Py.split sep s) as [|v vs].
      * apply list_elem_of_singleton in Hw as ->. simpl. by rewrite Hc.
      * apply elem_of_cons in Hw as [-> | Hw].
        -- simpl. rewrite Hc. simpl. apply IH; [done | by left].
        -- apply IH; [done | by right].
Qed.

Lemma derive_skill_set_isascii (cell : option string) (kw : string) :
  Py.isascii (default "" cell) = true → kw ∈ derive_skill_set cell →
  Py.isascii kw = true.
Proof.
  intros Hcell (k & Hk & _ & ->)%elem_of_normalise_keywords.
  rewrite isascii_lower. apply isascii_strip. by eapply isascii_split.
Qed.

(** X1. For a sheet whose skills cells hold ASCII text, the frame that
    loading builds keeps the rows of the sheet, in their order, and every
    keyword of every [skill_set] is in normal form: not empty, without
    blanks around it, without an upper-case letter, without a comma, and
    ASCII text again. *)
Theorem loaded_skill_sets_normal (sheet : Sheet) (df : list Row) :
  _load_and_prepare sheet = Ok df →
  Forall (λ r, Py.isascii (default "" (Employee_Skills r)) = true) (records sheet) →
  map raw df = records sheet ∧
  ∀ row kw, row ∈ df → kw ∈ skill_set row →
    kw ≠ "" ∧ Py.strip kw = kw ∧ Py.lower kw = kw ∧ string_has "," kw = false ∧
    Py.isascii kw = true.
Proof.
  unfold _load_and_prepare. case_decide; [done|]. intros [= <-] Hascii. split.
  - rewrite map_map. simpl. apply map_id.
  - intros row kw Hrow Hkw.
    apply list_elem_of_In, in_map_iff in Hrow as (r & <- & Hr). simpl in Hkw.
    apply list_elem_of_In in Hr. eapply Forall_forall in Hascii; [|exact Hr].
    pose proof (derive_skill_set_isascii _ _ Hascii Hkw) as Hkwa.
    unfold derive_skill_set in Hkw.
    destruct (normalise_keywords_normal _ _ Hkw) as (? & ? & ? & Hcomma).
    repeat split; try done. apply Hcomma.
    apply Forall_forall. intros w Hw. by eapply split_no_separator.
Qed.

(** X2. The skills field of the search form and the skills column of the
    sheet are read alike, for ASCII text: the keywords [search] requires
    for the text typed into the form are the keywords loading derives from
    a cell that reaches it as the same string, and they are ASCII text. A
    cell that reaches loading as NaN (a blank cell, or a text that
    [pd.read_excel] takes for a missing value) is read like the empty
    form and gives no keyword. *)
Theorem form_skills_as_loaded (skills_input : string) :
  Py.isascii skills_input = true →
  normalise_keywords (Ui.parse_skills_input skills_input) =
    derive_skill_set (Some skills_input) ∧
  (∀ kw, kw ∈ derive_skill_set (Some skills_input) → Py.isascii kw = true) ∧
  derive_skill_set None = ∅ ∧
  normalise_keywords (Ui.parse_skills_input "") = ∅.
Proof.
  intros Hascii. split; [|split; [|split]]; [| |done..].
  - unfold Ui.parse_skills_input, derive_skill_set. simpl.
    induction (Py.split "," skills_input) as [|k ks IH]; [done|].
    rewrite filter_cons.
    destruct (decide (Py.truthy (Py.strip k) = true)) as [Ht | Ht].
    + simpl. rewrite !normalise_keywords_cons, strip_idemp. by rewrite IH.
    + rewrite normalise_keywords_cons, IH.
      rewrite decide_True; [by rewrite (left_id_L ∅ (∪))|].
      by destruct (Py.strip k).
  - intros kw. by apply derive_skill_set_isascii.
Qed.

(** X3. The required skills count as a set of normalised keywords: for
    lists of ASCII text, the result of [search] is the same when the list
    is reordered and when its entries are replaced by entries that differ
    in case or in the blanks around them. *)
Theorem required_skills_insensitive {Embedding} (model_encode : string → Embedding)
    index_search math_exp (self : EmployeeSearchEngine Embedding)
    query (ks ks' ks'' : list string) age_min age_max top_k return_json :
  Forall (λ k, Py.isascii k = true) ks →
  Forall (λ k, Py.isascii k = true) ks'' →
  ks ≡ₚ ks' →
  Forall2 (λ k k', Py.lower (Py.strip k) = Py.lower (Py.strip k')) ks' ks'' →
  search model_encode index_search math_exp self query (Some ks)
    age_min age_max top_k return_json =
  search model_encode index_search math_exp self query (Some ks'')
    age_min age_max top_k return_json.
Proof.
  intros _ _ Hperm Hsame.
  assert (normalise_keywords ks = normalise_keywords ks'') as Heq.
  { transitivity (normalise_keywords ks').
    - apply set_eq. intros kw. rewrite !elem_of_normalise_keywords.
      by setoid_rewrite Hperm.
    - clear Hperm. induction Hsame as [|k k' l l' Hk _ IH]; [done|].
      rewrite !normalise_keywords_cons, IH, Hk.
      assert (Py.strip k = "" ↔ Py.strip k' = "") as Hiff.
      { split; intros Hs.
        - rewrite Hs in Hk. simpl in Hk. by destruct (Py.strip k').
        - rewrite Hs in Hk. simpl in Hk. by destruct (Py.strip k). }
      destruct (decide (Py.strip k = "")), (decide (Py.strip k' = "")); tauto || done. }
  unfold search. simpl. by rewrite Heq.
Qed.

(** ** Scores *)

Lemma Qc_this_le (x y : Qc) : (x ≤ y)%Qc ↔ (this x <= this y)%Q.
Proof. done. Qed.

Lemma Qc_this_lt (x y : Qc) : (x < y)%Qc ↔ (this x < this y)%Q.
Proof. done. Qed.


(** [math.exp] is only ever called on a number that is not positive. *)
Lemma age_score_argument (d : Qc) :
  (- (if decide (d < 0)%Qc then (- d)%Qc else d) / Q2Qc 10.0%Q ≤ 0)%Qc.
Proof.
  destruct (decide (d < 0)%Qc) as [Hd | Hd].
  - unfold Qclt in Hd. unfold Qcle, Qcdiv, Qcmult, Qcopp, Qcinv. simpl.
    rewrite !Qred_correct. change (Qred 0) with 0%Q in *.
    change (this 0%Qc) with 0%Q in Hd.
    setoid_replace (/ 10.0)%Q with (1 # 10)%Q using relation Qeq by reflexivity. lra.
  - apply Qcnot_lt_le in Hd. unfold Qcle in Hd.
    unfold Qcle, Qcdiv, Qcmult, Qcopp, Qcinv. simpl.
    rewrite !Qred_correct. change (Qred 0) with 0%Q in *.
    change (this 0%Qc) with 0%Q in Hd.
    setoid_replace (/ 10.0)%Q with (1 # 10)%Q using relation Qeq by reflexivity. lra.
Qed.

(** X5. [_age_score] calls [math.exp] only on numbers that are not
    positive; so, with an exponential that maps them into [0, 1] (far
    from the range [math.exp] gives 0.0), the age score lies in [0, 1] for
    every age and every range. *)
Theorem age_score_unit_interval (math_exp : Qc → Qc) (a min_age max_age : Z) :
  (∀ x, (x ≤ 0)%Qc → (0 ≤ math_exp x ≤ 1)%Qc) →
  (0 ≤ _age_score math_exp a min_age max_age ≤ 1)%Qc.
Proof.
  intros Hexp. unfold _age_score.
  destruct (decide (min_age ≤ a ≤ max_age)); [by split|].
  apply Hexp, age_score_argument.
Qed.

Lemma Qc_ratio_this (a : Z) (b : positive) :
  (this (Qc_of_Z a / Qc_of_Z (Z.pos b))%Qc == a # b)%Q.
Proof.
  unfold Qcdiv, Qcmult, Qcinv. simpl. rewrite !Qred_correct.
  symmetry. apply Qmake_Qdiv.
Qed.

Lemma Qc_ratio_le (a c : Z) (b d : positive) :
  (Qc_of_Z a / Qc_of_Z (Z.pos b) ≤ Qc_of_Z c / Qc_of_Z (Z.pos d))%Qc ↔
  a * Z.pos d ≤ c * Z.pos b.
Proof. unfold Qcle. rewrite !Qc_ratio_this. done. Qed.

Lemma Qc_ratio_eq (a c : Z) (b d : positive) :
  (Qc_of_Z a / Qc_of_Z (Z.pos b) = Qc_of_Z c / Qc_of_Z (Z.pos d))%Qc ↔
  a * Z.pos d = c * Z.pos b.
Proof.
  split.
  - intros H. apply (f_equal this) in H.
    assert (a # b == c # d)%Q as Heq by (by rewrite <- !Qc_ratio_this, H).
    exact Heq.
  - intros H. apply Qc_is_canon. rewrite !Qc_ratio_this. exact H.
Qed.

Lemma Ok_inj {A} (a b : A) : Ok a = Ok b → a = b.
Proof. congruence. Qed.

(** X6. The extremes of the skill ratio: it is 0 exactly when a required
    keyword is missing, and 1 exactly when nothing is required or the
    candidate has the required keywords and no other skill. *)
Theorem skills_match_ratio_extremes (candidate_skills required_keywords : gset string) :
  (_skills_match_ratio candidate_skills required_keywords = Ok 0%Qc ↔
   required_keywords ≠ ∅ ∧ ¬ required_keywords ⊆ candidate_skills) ∧
  (_skills_match_ratio candidate_skills required_keywords = Ok 1%Qc ↔
   required_keywords = ∅ ∨ required_keywords = candidate_skills).
Proof.
  destruct (decide (required_keywords = ∅)) as [Hreq | Hreq].
  { unfold _skills_match_ratio. rewrite decide_True by done. split.
    - split; [intros H%Ok_inj; apply (f_equal this) in H; by vm_compute in H | tauto].
    - split; [by left | done]. }
  destruct (decide (required_keywords ⊆ candidate_skills)) as [Hsub | Hsub].
  - destruct (skills_match_ratio_subset _ _ Hreq Hsub) as [-> _].
    assert (size required_keywords ≠ 0%nat) as Hn by (by intros ?%size_empty_inv%leibniz_equiv).
    pose proof (subseteq_size _ _ Hsub) as Hle.
    assert (Z.of_nat (size candidate_skills) `max` 1 =
            Z.pos (Pos.of_nat (size candidate_skills))) as ->.
    { destruct (size candidate_skills) as [|m]; [lia|]. lia. }
    assert (0 = Qc_of_Z 0 / Qc_of_Z (Z.pos 1))%Qc as H0 by (by apply Qc_is_canon).
    assert (1 = Qc_of_Z 1 / Qc_of_Z (Z.pos 1))%Qc as H1 by (by apply Qc_is_canon).
    split.
    + split; [|tauto]. intros H%Ok_inj. rewrite H0 in H.
      apply Qc_ratio_eq in H. lia.
    + split.
      * intros H%Ok_inj. rewrite H1 in H. apply Qc_ratio_eq in H. right.
        apply set_subseteq_size_eq; [done|]. lia.
      * intros [? | <-]; [done|]. f_equal. rewrite H1.
        apply Qc_ratio_eq. lia.
  - unfold _skills_match_ratio.
    rewrite decide_False by done. rewrite decide_True by done. split.
    + split; [done | done].
    + split; [intros H%Ok_inj; apply (f_equal this) in H; by vm_compute in H|].
      intros [? | ->]; [done|]. by destruct Hsub.
Qed.

(** X7. Extra skills lower the ratio: when the required keywords are
    present, a candidate with more skills gets a ratio that is not
    greater. *)
Theorem skills_match_ratio_antitone (cand cand' req : gset string) :
  req ≠ ∅ → req ⊆ cand → cand ⊆ cand' →
  ∃ r r', _skills_match_ratio cand req = Ok r ∧
          _skills_match_ratio cand' req = Ok r' ∧ (r' ≤ r)%Qc.
Proof.
  intros Hreq Hsub Hmore.
  assert (req ⊆ cand') as Hsub' by (by etrans).
  destruct (skills_match_ratio_subset _ _ Hreq Hsub) as [-> _].
  destruct (skills_match_ratio_subset _ _ Hreq Hsub') as [-> _].
  eexists _, _. split; [done|]. split; [done|].
  apply subseteq_size in Hsub, Hmore.
  assert (size req ≠ 0%nat) as Hn by (by intros ?%size_empty_inv%leibniz_equiv).
  assert (∀ n : nat, n ≠ 0%nat → Z.of_nat n `max` 1 = Z.pos (Pos.of_nat n)) as Hmax by lia.
  rewrite !Hmax by lia. apply Qc_ratio_le. nia.
Qed.

(** ** More on the loop and on [search] *)

Section MoreLoopFacts.

Variable math_exp : Qc → Qc.
Variables (df : list Row) (req : gset string) (lo hi : Z).




(** Fillers never become candidates. *)
Lemma selected_length_labels pool new :
  selected df req lo hi pool new →
  (length new ≤ length (filter (λ p : Z * Qc, (p.1 ≠ -1)%Z) pool))%nat.
Proof.
  induction 1 as [|p pool new _ _ IH | p c pool new Hs _ IH]; simpl; [done|..].
  - rewrite filter_cons. case_decide; simpl; lia.
  - destruct Hs as (row & ratio & Hne & _).
    rewrite filter_cons, decide_True by done. simpl. lia.
Qed.

End MoreLoopFacts.

Section MoreSearchFacts.

Context {Embedding : Type}.
Variable model_encode : string → Embedding.
Variable index_search : list Embedding → Embedding → nat → list Qc * list Z.
Variable math_exp : Qc → Qc.
Variable self : EmployeeSearchEngine Embedding.
Variables (query : string) (required_skills : option (list string)).
Variables (age_min age_max : Z) (return_json : bool).

(** X8. A larger [top_k] extends the list: for 0 <= k <= k', what [search]
    returns for k is the first k entries of what it returns for k', and it
    returns for k' whenever it returns for k. *)
Theorem search_top_k_prefix (k k' : Z) (res : list Candidate) :
  0 ≤ k ≤ k' →
  search model_encode index_search math_exp self query required_skills
    age_min age_max k return_json = Ok res →
  ∃ res',
    search model_encode index_search math_exp self query required_skills
      age_min age_max k' return_json = Ok res' ∧
    res = take (Z.to_nat k) res' ∧ res `prefix_of` res'.
Proof.
  intros Hk. rewrite !search_unfold.
  destruct (loop _ _ _ _ _ _ _) as [candidates|e]; simpl; [|done].
  intros [= <-]. eexists. split; [done|].
  unfold Py.slice_to. rewrite !decide_True by lia.
  rewrite take_take. replace (Z.to_nat k `min` Z.to_nat k')%nat with (Z.to_nat k) by lia.
  split; [done|].
  exists (drop (Z.to_nat k) (take (Z.to_nat k') (sort_by_score_desc candidates))).
  rewrite <- (take_drop (Z.to_nat k) (take (Z.to_nat k') _)) at 1.
  rewrite take_take. by replace (Z.to_nat k `min` Z.to_nat k')%nat with (Z.to_nat k) by lia.
Qed.

(** X9. [search] does not reject a [top_k] that is not positive: for 0 it
    returns the empty list, and for a negative [top_k] it returns the full
    ranking (what it returns for every large [top_k]) without its last
    [-top_k] candidates. *)
Theorem search_top_k_not_positive (k : Z) (res : list Candidate) :
  k ≤ 0 →
  search model_encode index_search math_exp self query required_skills
    age_min age_max k return_json = Ok res →
  ∃ full,
    (∀ k', Z.of_nat (length full) ≤ k' →
       search model_encode index_search math_exp self query required_skills
         age_min age_max k' return_json = Ok full) ∧
    (k = 0 → res = []) ∧
    (k < 0 → res = take (length full - Z.to_nat (- k)) full).
Proof.
  intros Hk. rewrite search_unfold.
  destruct (loop _ _ _ _ _ _ _) as [candidates|e] eqn:Hloop; simpl; [|done].
  intros [= <-]. exists (sort_by_score_desc candidates). split; [|split].
  - intros k' Hk'. rewrite search_unfold, Hloop. simpl.
    by rewrite slice_to_all.
  - by intros ->.
  - intros Hneg. unfold Py.slice_to. rewrite decide_False by lia.
    f_equal. lia.
Qed.

End MoreSearchFacts.

(** ** Sorting and filtering *)

Section SortFilter.

Context {A : Type} (before : A → A → bool).
Context (P : A → Prop) `{!∀ x, Decision (P x)}.
Hypothesis before_negtrans :
  ∀ a b c, before b a = false → before c b = false → before c a = false.



Hypothesis before_asym : ∀ a b, before a b = true → before b a = false.


End SortFilter.


(** ** The order of the skills *)

(** [sorted] lists a set in strictly ascending order. *)
Lemma sorted_ascending (s : gset string) :
  StronglySorted (λ a b, String.ltb a b = true) (Py.sorted s).
Proof.
  unfold Py.sorted.
  assert (NoDup (Py.stable_sort String.ltb (elements s))) as Hnd.
  { rewrite stable_sort_Permutation. apply NoDup_elements. }
  pose proof (stable_sort_StronglySorted String.ltb ltb_asym ltb_negtrans (elements s)) as Hs.
  induction Hs as [|x l _ IH Hx]; [constructor|].
  apply NoDup_cons in Hnd as [Hx' Hnd]. constructor; [by apply IH|].
  apply Forall_forall. intros y Hy.
  eapply Forall_forall in Hx; [|exact Hy].
  apply ltb_total; [|done]. by intros ->.
Qed.

(** ** The ranking as a whole *)

(** The ratio of an entry that passed the skill filter is positive. *)
Lemma survivor_ratio_positive (cand req : gset string) (ratio : Qc) :
  req = ∅ ∨ req ⊆ cand → _skills_match_ratio cand req = Ok ratio →
  (0 < ratio ≤ 1)%Qc.
Proof.
  intros Hsk Hratio.
  destruct (decide (req = ∅)) as [Hreq | Hreq].
  { unfold _skills_match_ratio in Hratio. rewrite decide_True in Hratio by done.
    apply Ok_inj in Hratio as <-. by split. }
  destruct Hsk as [? | Hsub]; [done|].
  destruct (skills_match_ratio_subset _ _ Hreq Hsub) as [Heq [_ Hle]].
  rewrite Heq in Hratio. apply Ok_inj in Hratio as <-. split; [|done].
  assert (size req ≠ 0%nat) as Hn by (by intros ?%size_empty_inv%leibniz_equiv).
  apply subseteq_size in Hsub.
  replace (Z.of_nat (size cand) `max` 1) with (Z.pos (Pos.of_nat (size cand))) by lia.
  apply Qclt_nge. intros Hneg.
  assert (0 = Qc_of_Z 0 / Qc_of_Z (Z.pos 1))%Qc as H0 by (by apply Qc_is_canon).
  rewrite H0 in Hneg. apply (proj1 (Qc_ratio_le _ _ _ _)) in Hneg. lia.
Qed.



Lemma string_app_assoc (a b c : string) : (a +:+ b) +:+ c = a +:+ (b +:+ c).
Proof.
  induction a as [|x a IH]; [done|].
  change (String x ((a +:+ b) +:+ c) = String x (a +:+ (b +:+ c))).
  by f_equal.
Qed.

Section RankingFacts.

Context {Embedding : Type}.
Variable model_encode : string → Embedding.
Variable index_search : list Embedding → Embedding → nat → list Qc * list Z.
Variable math_exp : Qc → Qc.
Variable self : EmployeeSearchEngine Embedding.
Variables (query : string) (required_skills : option (list string)).
Variables (age_min age_max top_k : Z) (return_json : bool).

(** X10. The engine does not check the order of the age bounds: with
    [age_max < age_min] a search that returns, returns the empty list. *)
Theorem search_inverted_range (res : list Candidate) :
  age_max < age_min →
  search model_encode index_search math_exp self query required_skills
    age_min age_max top_k return_json = Ok res →
  res = [].
Proof.
  intros Hinv Hs. destruct res as [|c res]; [done|]. exfalso.
  destruct (search_elem_of _ _ _ _ _ _ _ _ _ _ _ c Hs)
    as (p & _ & row & ratio & _ & _ & _ & Hage & _); [by left | lia].
Qed.

(** X11. Range of the scores: the score of a returned candidate with
    similarity [sim] lies above 0.5 * sim + 0.2 and is at most
    0.5 * sim + 0.5; so when the similarities of the labelled pool entries
    are between -1 and 1, all scores lie above -0.3 and are at most 1. *)
Theorem score_range (res : list Candidate) :
  search model_encode index_search math_exp self query required_skills
    age_min age_max top_k return_json = Ok res →
  (∀ c, c ∈ res →
     ∃ idx sim,
       (idx, sim) ∈ raw_pool model_encode index_search self query ∧
       idx ≠ -1 ∧
       (Q2Qc 0.5%Q * sim + Q2Qc 0.2%Q < score c ≤
        Q2Qc 0.5%Q * sim + Q2Qc 0.5%Q)%Qc) ∧
  (Forall (λ p, p.1 ≠ -1 → (-1 ≤ p.2 ≤ 1)%Qc)
     (raw_pool model_encode index_search self query) →
   ∀ c, c ∈ res → (Q2Qc (-0.3)%Q < score c ≤ 1)%Qc).
Proof.
  intros Hs.
  assert (∀ c, c ∈ res →
     ∃ idx sim,
       (idx, sim) ∈ raw_pool model_encode index_search self query ∧
       idx ≠ -1 ∧
       (Q2Qc 0.5%Q * sim + Q2Qc 0.2%Q < score c ≤
        Q2Qc 0.5%Q * sim + Q2Qc 0.5%Q)%Qc) as Hrel.
  { intros c Hc.
    destruct (search_elem_of _ _ _ _ _ _ _ _ _ _ _ c Hs Hc)
      as ([idx sim] & Hp & row & ratio & Hne & _ & Hsk & _ & Hratio & ->).
    exists idx, sim. split; [done|]. split; [done|]. simpl.
    destruct (survivor_ratio_positive _ _ _ Hsk Hratio) as [Hpos Hle].
    unfold Qclt, Qcle in *. unfold ROLE_WEIGHT, SKILL_WEIGHT, AGE_WEIGHT.
    unfold Qcplus, Qcmult. simpl. rewrite !Qred_correct.
    change (this 0%Qc) with 0%Q in Hpos. change (this 1%Qc) with 1%Q in Hle.
    split; lra. }
  split; [done|]. intros Hsims c Hc.
  destruct (Hrel c Hc) as (idx & sim & Hp & Hne & Hlo & Hhi).
  eapply Forall_forall in Hsims; [|exact Hp]. simpl in Hsims.
  destruct (Hsims Hne) as [Hs1 Hs2]. clear Hsims.
  unfold Qclt, Qcle in *. unfold Qcplus, Qcmult, Qcopp in *. simpl in *.
  rewrite !Qred_correct in *. split; lra.
Qed.

(** X12. The rationale of a returned candidate always reports the age
    score 1.00, and mentions the required skills exactly when some are
    required. *)
Theorem justification_text (res : list Candidate) :
  search model_encode index_search math_exp self query required_skills
    age_min age_max top_k return_json = Ok res →
  ∀ c, c ∈ res →
    ∃ idx sim,
      (idx, sim) ∈ raw_pool model_encode index_search self query ∧
      justification c =
        (if decide (normalise_keywords (default [] required_skills) = ∅)
         then "Role sim " +:+ Py.fmt2 sim +:+ "; age score 1.00"
         else "Role sim " +:+ Py.fmt2 sim
                +:+ "; all required skills present; age score 1.00").
Proof.
  intros Hs c Hc.
  destruct (search_elem_of _ _ _ _ _ _ _ _ _ _ _ c Hs Hc)
    as ([idx sim] & Hp & row & ratio & _ & _ & _ & _ & _ & ->).
  exists idx, sim. split; [done|]. simpl.
  change (Py.fmt2 1) with "1.00".
  destruct (decide (normalise_keywords (default [] required_skills) = ∅)) as [Hreq | Hreq].
  - rewrite decide_False by (intros Hne; by apply Hne).
    simpl. by rewrite !string_app_assoc.
  - rewrite decide_True by done.
    simpl. by rewrite !string_app_assoc.
Qed.

(** X13. The skills of a returned candidate are listed in strictly
    ascending order, hence without repetition. *)
Theorem skills_listed_ascending (res : list Candidate) :
  search model_encode index_search math_exp self query required_skills
    age_min age_max top_k return_json = Ok res →
  ∀ c, c ∈ res →
    StronglySorted (λ a b, String.ltb a b = true) (skills c) ∧ NoDup (skills c).
Proof.
  intros Hs c Hc.
  destruct (search_elem_of _ _ _ _ _ _ _ _ _ _ _ c Hs Hc)
    as (p & _ & row & ratio & _ & _ & _ & _ & _ & ->).
  simpl. split; [apply sorted_ascending|].
  unfold Py.sorted. rewrite stable_sort_Permutation. apply NoDup_elements.
Qed.


(** X15. Fillers never become candidates: the label -1, which [iloc] would
    read as the last row, is skipped, so no more candidates are returned
    than the pool has labels other than -1, and each of them shows the row
    of such a label. *)
Theorem fillers_skipped (res : list Candidate) :
  search model_encode index_search math_exp self query required_skills
    age_min age_max top_k return_json = Ok res →
  (length res ≤
   length (filter (λ p : Z * Qc, (p.1 ≠ -1)%Z)
             (raw_pool model_encode index_search self query)))%nat ∧
  ∀ c, c ∈ res →
    ∃ idx sim row,
      (idx, sim) ∈ raw_pool model_encode index_search self query ∧
      idx ≠ -1 ∧ iloc (_df self) idx = Ok row ∧ describes row c.
Proof.
  intros Hs. split.
  - apply search_inv in Hs as (candidates & Hsel & ->).
    etrans; [apply slice_to_length_le|].
    unfold sort_by_score_desc. rewrite length_stable_sort.
    by eapply selected_length_labels.
  - intros c Hc.
    destruct (search_elem_of _ _ _ _ _ _ _ _ _ _ _ c Hs Hc)
      as ([idx sim] & Hp & row & ratio & Hne & Hrow & _ & _ & _ & ->).
    exists idx, sim, row. repeat split; done.
Qed.

End RankingFacts.

(** ** Loading, then searching *)

Lemma loaded_row_skill_set (sheet : Sheet) (df : list Row) (row : Row) :
  _load_and_prepare sheet = Ok df → row ∈ df →
  skill_set row = derive_skill_set (Employee_Skills (raw row)).
Proof.
  unfold _load_and_prepare. case_decide; [done|]. intros [= <-] Hrow.
  by apply list_elem_of_In, in_map_iff in Hrow as (r & <- & _).
Qed.

Lemma derive_skill_set_no_comma (cell : option string) (kw : string) :
  kw ∈ derive_skill_set cell → string_has "," kw = false.
Proof.
  intros Hkw. apply (normalise_keywords_normal _ _ Hkw).
  apply Forall_forall. intros w Hw. by eapply split_no_separator.
Qed.

Lemma init_inv {Embedding} (model_encode : string → Embedding) sheet self :
  init model_encode sheet = Ok self →
  _load_and_prepare sheet = Ok (_df self) ∧
  _embeddings self =
    map (λ r, model_encode (Employee_Roles_Responsibilities (raw r))) (_df self).
Proof.
  unfold init. destruct (_load_and_prepare sheet) as [df|e]; simpl; [|done].
  destruct (map _ df) as [|v vs] eqn:Hemb; [done|].
  intros [= <-]. by rewrite <- Hemb.
Qed.

Section LoadedEngine.

Context {Embedding : Type}.
Variable model_encode : string → Embedding.
Variable index_search : list Embedding → Embedding → nat → list Qc * list Z.
Variable math_exp : Qc → Qc.
Variable self : EmployeeSearchEngine Embedding.
Variables (query : string) (required_skills : option (list string)).
Variables (age_min age_max top_k : Z) (return_json : bool).

(** X16. A required skill with a comma in it matches no row: the keywords
    of a loaded sheet never hold a comma, so on an engine built from a
    sheet such a search returns the empty list. *)
Theorem comma_skill_matches_nothing (sheet : Sheet) (kw : string)
    (res : list Candidate) :
  init model_encode sheet = Ok self →
  kw ∈ normalise_keywords (default [] required_skills) →
  string_has "," kw = true →
  search model_encode index_search math_exp self query required_skills
    age_min age_max top_k return_json = Ok res →
  res = [].
Proof.
  intros [Hload _]%init_inv Hkw Hcomma Hs.
  destruct res as [|c res]; [done|]. exfalso.
  destruct (search_elem_of _ _ _ _ _ _ _ _ _ _ _ c Hs)
    as (p & _ & row & ratio & _ & Hrow & Hsk & _); [by left|].
  apply iloc_elem_of in Hrow.
  assert (kw ∈ skill_set row) as Hin.
  { destruct Hsk as [Hempty | Hsub]; [|by apply Hsub].
    rewrite Hempty in Hkw. by apply elem_of_empty in Hkw. }
  rewrite (loaded_row_skill_set _ _ _ Hload Hrow) in Hin.
  apply derive_skill_set_no_comma in Hin. congruence.
Qed.

(** X17. An engine built by [__init__] comes from a sheet with at least
    one row and holds one vector per row of the sheet, the encoding of the
    row's role text, in row order; so when the index keeps the promise of
    FAISS for the vectors it stores, every label of the pool other than
    the filler -1 is the position of a row of the frame: [df.iloc] finds
    that row, and raises no [IndexError]. *)
Theorem built_engine_labels_are_rows (sheet : Sheet) :
  init model_encode sheet = Ok self →
  pool_well_formed (length (_embeddings self)) TOP_K_RAW
    (index_search (_embeddings self) (model_encode query) TOP_K_RAW) →
  records sheet ≠ [] ∧
  map raw (_df self) = records sheet ∧
  _embeddings self =
    map (λ r, model_encode (Employee_Roles_Responsibilities r)) (records sheet) ∧
  ∀ idx sim,
    (idx, sim) ∈ raw_pool model_encode index_search self query → idx ≠ -1 →
    0 ≤ idx ∧
    ∃ row, _df self !! Z.to_nat idx = Some row ∧ iloc (_df self) idx = Ok row.
Proof.
  intros Hinit Hwf. pose proof Hinit as [Hload Hemb]%init_inv.
  assert (map raw (_df self) = records sheet) as Hraw.
  { revert Hload. unfold _load_and_prepare. case_decide; [done|].
    intros [= <-]. rewrite map_map. apply map_id. }
  assert (length (_embeddings self) = length (_df self)) as Hlen
    by (by rewrite Hemb, length_map).
  split; [|split; [done|split]].
  - intros Hnil. rewrite Hnil in Hraw. apply map_eq_nil in Hraw.
    unfold init in Hinit. rewrite Hload in Hinit. simpl in Hinit.
    by rewrite Hraw in Hinit.
  - by rewrite Hemb, <- Hraw, map_map.
  - intros idx sim Hp Hidx. destruct Hwf as (_ & _ & Hlabels).
    unfold raw_pool in Hp. apply elem_of_zip_l in Hp.
    eapply Forall_forall in Hlabels; [|exact Hp]. rewrite Hlen in Hlabels.
    split; [lia|]. unfold iloc.
    rewrite (decide_False (P := idx < 0)) by lia.
    rewrite decide_True by lia.
    destruct (lookup_lt_is_Some_2 (_df self) (Z.to_nat idx)) as [row Hrow]; [lia|].
    exists row. by rewrite Hrow.
Qed.

End LoadedEngine.

(** ** The HTTP service *)

Section ServiceFacts.

Context {Embedding : Type}.
Variable model_encode : string → Embedding.
Variable index_search : list Embedding → Embedding → nat → list Qc * list Z.
Variable math_exp : Qc → Qc.
Implicit Types (ENGINES : gmap string (EmployeeSearchEngine Embedding)).

Lemma search_length_top_k (self : EmployeeSearchEngine Embedding) query
    required_skills age_min age_max top_k return_json res :
  0 ≤ top_k →
  search model_encode index_search math_exp self query required_skills
    age_min age_max top_k return_json = Ok res →
  Z.of_nat (length res) ≤ top_k.
Proof.
  intros Hk (candidates & _ & ->)%search_inv. by apply slice_to_length.
Qed.

(** X18. What a client gets from [POST /search] for a request that passed
    the schema: a response has status 200, comes from a registered dataset
    and a range with [age_min <= age_max], and holds at most [top_k], so at
    most 20, candidates, each with an age inside the requested range, so
    between 16 and 99. *)
Theorem search_route_response ENGINES (req : Service.SearchRequest)
    (status_code : Z) (results : list Candidate) :
  Service.valid req →
  Service.search_route model_encode index_search math_exp ENGINES req =
    Service.Response status_code results →
  status_code = 200 ∧
  is_Some (ENGINES !! Service.dataset_id req) ∧
  Service.age_min req ≤ Service.age_max req ∧
  Z.of_nat (length results) ≤ Service.top_k req ≤ 20 ∧
  ∀ c, c ∈ results →
    Service.age_min req ≤ age c ≤ Service.age_max req ∧ 16 ≤ age c ≤ 99.
Proof.
  intros (Hmin & Hmax & Hk). unfold Service.search_route.
  destruct (ENGINES !! Service.dataset_id req) as [engine|]; [|done].
  case_decide as Hrange; [done|].
  destruct (search _ _ _ _ _ _ _ _ _ _) as [raw|e] eqn:Hs; [|done].
  intros [= <- <-]. split; [done|]. split; [by eexists|]. split; [lia|].
  split.
  - split; [|lia]. eapply search_length_top_k; [|exact Hs]. lia.
  - intros c Hc.
    destruct (search_elem_of _ _ _ _ _ _ _ _ _ _ _ c Hs Hc)
      as (p & _ & row & ratio & _ & _ & _ & Hage & _ & ->).
    simpl. lia.
Qed.

(** X19. The errors of [POST /search]: the reply is the 404 exactly when
    the dataset is not registered, whatever the rest of the request; it is
    the 400 exactly when the dataset is registered and [age_min] exceeds
    [age_max]; there is no other [HTTPException], and in every other case
    the engine was asked with [age_min <= age_max]. *)
Theorem search_route_errors ENGINES (req : Service.SearchRequest) :
  let reply := Service.search_route model_encode index_search math_exp ENGINES req in
  (reply = Service.HTTPException 404 Service.UnknownDataset ↔
   ENGINES !! Service.dataset_id req = None) ∧
  (reply = Service.HTTPException 400 Service.AgeRange ↔
   is_Some (ENGINES !! Service.dataset_id req) ∧
   Service.age_min req > Service.age_max req) ∧
  (∀ status_code detail, reply = Service.HTTPException status_code detail →
     (status_code, detail) = (404, Service.UnknownDataset) ∨
     (status_code, detail) = (400, Service.AgeRange)) ∧
  ((∀ status_code detail, reply ≠ Service.HTTPException status_code detail) →
   ∃ engine,
     ENGINES !! Service.dataset_id req = Some engine ∧
     Service.age_min req ≤ Service.age_max req ∧
     match search model_encode index_search math_exp engine (Service.query req)
             (Some (default [] (Service.skills req)))
             (Service.age_min req) (Service.age_max req) (Service.top_k req) false with
     | Ok raw => reply = Service.Response 200 raw
     | Raise e => reply = Service.Escaped e
     end).
Proof.
  intros reply. subst reply. unfold Service.search_route.
  destruct (ENGINES !! Service.dataset_id req) as [engine|].
  - case_decide as Hrange.
    + split; [split; intros H; discriminate H|].
      split; [split; [intros _; split; [by eexists | done] | done]|].
      split; [intros ? ? [= <- <-]; by right|].
      intros Hno. by destruct (Hno 400 Service.AgeRange).
    + destruct (search _ _ _ _ _ _ _ _ _ _) as [raw|e] eqn:Hs.
      * split; [split; intros H; discriminate H|].
        split; [split; [intros H; discriminate H | intros [_ ?]; lia]|].
        split; [intros ? ? H; discriminate H|].
        intros _. exists engine. split; [done|]. split; [lia | by rewrite Hs].
      * split; [split; intros H; discriminate H|].
        split; [split; [intros H; discriminate H | intros [_ ?]; lia]|].
        split; [intros ? ? H; discriminate H|].
        intros _. exists engine. split; [done|]. split; [lia | by rewrite Hs].
  - split; [done|].
    split; [split; [intros H; discriminate H | intros [[? H] _]; discriminate H]|].
    split; [intros ? ? [= <- <-]; by left|].
    intros Hno. by destruct (Hno 404 Service.UnknownDataset).
Qed.

(** X20. A successful upload registers the dataset: the reply has status
    201 and the first eight characters of the uuid as id; the engine under
    that id is the one built from the uploaded sheet, whether or not the id
    was taken before; every other id keeps its engine, so searches of other
    datasets answer as before; and a search with the new id is no 404. *)
Theorem upload_registers ENGINES ENGINES' (file : Service.UploadFile)
    (uuid_hex : string) (status_code : Z) (id : string) :
  Service.upload_dataset model_encode ENGINES file uuid_hex =
    (Service.Response status_code id, ENGINES') →
  status_code = 201 ∧ id = String.substring 0 8 uuid_hex ∧
  (∃ sheet engine,
     Service.parsed file = Some sheet ∧ init model_encode sheet = Ok engine ∧
     ENGINES' !! id = Some engine) ∧
  (∀ req, Service.dataset_id req ≠ id →
     Service.search_route model_encode index_search math_exp ENGINES' req =
     Service.search_route model_encode index_search math_exp ENGINES req) ∧
  (∀ req, Service.dataset_id req = id →
     Service.search_route model_encode index_search math_exp ENGINES' req ≠
     Service.HTTPException 404 Service.UnknownDataset).
Proof.
  unfold Service.upload_dataset, Service.build_engine.
  destruct (negb _); [done|].
  destruct (_ || _); [done|].
  destruct (Service.parsed file) as [sheet|]; [|done].
  destruct (init model_encode sheet) as [engine|e] eqn:Hinit; [|done].
  intros [= <- <- <-]. split; [done|]. split; [done|]. split; [|split].
  - exists sheet, engine. by rewrite lookup_insert_eq.
  - intros req Hne. unfold Service.search_route.
    by rewrite lookup_insert_ne.
  - intros req Hid. unfold Service.search_route. rewrite Hid, lookup_insert_eq.
    case_decide; [done|]. by destruct (search _ _ _ _ _ _ _ _ _ _).
Qed.

(** X21. An upload that is not answered with a 201 changes nothing in the
    registry. The reply is the 415 exactly when the lower-cased file name
    ends neither in .xls nor in .xlsx, whatever the content; every other
    [HTTPException] is a 400 "Failed to parse Excel"; and when the cause of
    a 400 is the error of the missing columns, the sheet was readable and
    the error carries the set of all the required columns the sheet
    lacks. *)
Theorem upload_refused ENGINES ENGINES' (file : Service.UploadFile)
    (uuid_hex : string) (reply : Service.Reply string) :
  Service.upload_dataset model_encode ENGINES file uuid_hex = (reply, ENGINES') →
  ((∀ status_code id, reply ≠ Service.Response status_code id) →
   ENGINES' = ENGINES) ∧
  (reply = Service.HTTPException 415 Service.NotExcel ↔
   endswith (Py.lower (Service.filename file)) ".xls" = false ∧
   endswith (Py.lower (Service.filename file)) ".xlsx" = false) ∧
  (∀ status_code detail, reply = Service.HTTPException status_code detail →
     (status_code = 415 ∧ detail = Service.NotExcel) ∨
     (status_code = 400 ∧ ∃ cause, detail = Service.FailedToParse cause)) ∧
  (∀ missing,
     reply = Service.HTTPException 400
               (Service.FailedToParse (Some (ValueError missing))) →
     ∃ sheet,
       Service.parsed file = Some sheet ∧ missing ≠ ∅ ∧
       ∀ col, col ∈ missing ↔ col ∈ required_cols ∧ col ∉ columns sheet).
Proof.
  unfold Service.upload_dataset, Service.build_engine.
  destruct (endswith _ ".xls") eqn:Hxls, (endswith _ ".xlsx") eqn:Hxlsx; simpl.
  4: { intros [= <- <-]. split; [done|]. split; [done|].
       split; [intros ? ? [= <- <-]; by left | intros ? [=]]. }
  all: destruct (_ || _);
    [ intros [= <- <-]; split; [done|];
      split; [split; [intros [=] | intros [? ?]; done]|];
      split; [intros ? ? [=] | intros ? [=]] |].
  all: destruct (Service.parsed file) as [sheet|];
    [| intros [= <- <-]; split; [done|];
       split; [split; [intros [=] | intros [? ?]; done]|];
       split; [intros ? ? [= <- <-]; right; eauto | intros ? [=]] ].
  all: unfold init, _load_and_prepare;
    destruct (decide (required_cols ∖ list_to_set (columns sheet) ≠ ∅)) as [Hm | Hm];
    simpl;
    [ intros [= <- <-]; split; [done|];
      split; [split; [intros [=] | intros [? ?]; done]|];
      split; [intros ? ? [= <- <-]; right; eauto|];
      intros missing [= <-]; exists sheet; split; [done|]; split; [done|];
      intros col; by rewrite elem_of_difference, elem_of_list_to_set
    | destruct (map _ (map _ (records sheet))) as [|v vs];
      intros [= <- <-];
      [ split; [done|];
        split; [split; [intros [=] | intros [? ?]; done]|];
        split; [intros ? ? [= <- <-]; right; eauto | intros ? [=]]
      | split; [intros Hno; by destruct (Hno 201 (String.substring 0 8 uuid_hex))|];
        split; [split; [intros [=] | intros [? ?]; done]|];
        split; [intros ? ? [=] | intros ? [=]] ] ].
Qed.

(** X22. No index error behind the service: uploads keep the registry to
    engines with one stored vector per row (the empty registry is one), and
    for such a registry and an index that keeps the promise of FAISS
    neither the [IndexError] of [df.iloc] nor the [ZeroDivisionError] of
    the ratio leaves [POST /search]. *)
Theorem service_no_index_error ENGINES :
  Service.registry_ok ENGINES →
  Service.index_contract index_search →
  Service.registry_ok (∅ : gmap string (EmployeeSearchEngine Embedding)) ∧
  (∀ file uuid_hex,
     Service.registry_ok (Service.upload_dataset model_encode ENGINES file uuid_hex).2) ∧
  (∀ req,
     Service.search_route model_encode index_search math_exp ENGINES req ≠
       Service.Escaped IndexError ∧
     Service.search_route model_encode index_search math_exp ENGINES req ≠
       Service.Escaped ZeroDivisionError).
Proof.
  intros Hok Hindex. split; [|split].
  - intros id engine Hl. by rewrite lookup_empty in Hl.
  - intros file uuid_hex. unfold Service.upload_dataset, Service.build_engine.
    destruct (negb _); [done|].
    destruct (_ || _); [done|].
    destruct (Service.parsed file) as [sheet|]; [|done].
    destruct (init model_encode sheet) as [engine|e] eqn:Hinit; [|done].
    simpl. intros id engine'. rewrite lookup_insert.
    case_decide; [|by apply Hok]. intros [= <-].
    apply init_inv in Hinit as [_ ->]. by rewrite length_map.
  - intros req. unfold Service.search_route.
    destruct (ENGINES !! Service.dataset_id req) as [engine|] eqn:Hl; [|done].
    case_decide; [done|].
    destruct (search_total model_encode index_search math_exp engine
                (Service.query req) (Some (default [] (Service.skills req)))
                (Service.age_min req) (Service.age_max req)
                (Service.top_k req) false) as [res ->]; [|done].
    rewrite <- (Hok _ _ Hl). apply Hindex.
Qed.

End ServiceFacts.

(** * The further properties on the scenario *)

Lemma toy_exp_unit (x : Qc) : (x ≤ 0)%Qc → (0 < Scenario.toy_exp x ≤ 1)%Qc.
Proof.
  intros Hx. unfold Scenario.toy_exp.
  unfold Qclt, Qcle, Qcdiv, Qcminus, Qcplus, Qcmult, Qcopp, Qcinv in *. simpl in *.
  rewrite !Qred_correct. change (Qred 0) with 0%Q in *. change (Qred 1) with 1%Q.
  assert (0 < 1 + - x)%Q as Hpos by lra.
  rewrite Qmult_1_l. split.
  - by apply Qinv_lt_0_compat.
  - apply Qle_shift_inv_r; lra.
Qed.

Lemma flat_ip_search_contract : Service.index_contract Scenario.flat_ip_search.
Proof.
  intros stored q k. unfold Scenario.flat_ip_search, pool_well_formed. simpl.
  set (scored := imap _ stored).
  set (best := take k (Py.stable_sort _ (reverse scored))).
  assert (length best ≤ k)%nat as Hlen by (unfold best; rewrite length_take; lia).
  rewrite !length_app, !length_fmap, !length_replicate.
  split; [lia|]. split; [lia|].
  apply Forall_app. split.
  - apply Forall_forall. intros i Hi.
    apply list_elem_of_fmap in Hi as ([i' sim] & -> & Hi).
    apply elem_of_take in Hi as (n & Hi & _).
    apply list_elem_of_lookup_2, elem_of_stable_sort in Hi.
    rewrite elem_of_reverse in Hi.
    apply elem_of_lookup_imap in Hi as (j & v & [= -> ->] & Hj).
    apply lookup_lt_Some in Hj. simpl. lia.
  - apply Forall_forall. intros i [-> _]%elem_of_replicate. lia.
Qed.

Lemma loaded_skill_sets_normal_witness :
  ∃ df, _load_and_prepare Scenario.sheet = Ok df ∧
        map raw df = records Scenario.sheet ∧
        ∀ row kw, row ∈ df → kw ∈ skill_set row → Py.lower kw = kw.
Proof.
  eexists. split; [by vm_compute|].
  edestruct (loaded_skill_sets_normal Scenario.sheet) as [Hraw Hkw];
    [by vm_compute | repeat constructor |].
  split; [exact Hraw|]. intros row kw Hrow Hin.
  by destruct (Hkw row kw Hrow Hin) as (_ & _ & ? & _).
Defined.

(** What is typed as " Python, SQL ,," asks for the keywords of a cell with
    that text. *)
Lemma form_skills_as_loaded_witness :
  normalise_keywords (Ui.parse_skills_input " Python, SQL ,,") =
  derive_skill_set (Some " Python, SQL ,,").
Proof. apply form_skills_as_loaded. reflexivity. Defined.

Lemma required_skills_insensitive_witness :
  search Scenario.toy_encode Scenario.flat_ip_search Scenario.toy_exp
    Scenario.engine "staff engineer" (Some ["sql"; " Python "]) 18 50 5 false =
  search Scenario.toy_encode Scenario.flat_ip_search Scenario.toy_exp
    Scenario.engine "staff engineer" (Some ["PYTHON"; " SQL"]) 18 50 5 false.
Proof.
  apply (required_skills_insensitive _ _ _ _ _ _ [" Python "; "sql"]).
  - repeat constructor.
  - repeat constructor.
  - apply Permutation_swap.
  - repeat constructor.
Defined.


Lemma age_score_unit_interval_witness :
  (0 ≤ _age_score Scenario.toy_exp 70 18 50 ≤ 1)%Qc.
Proof.
  apply age_score_unit_interval. intros x Hx.
  destruct (toy_exp_unit x Hx) as [Hpos Hle]. split; [|exact Hle].
  by apply Qclt_le_weak.
Defined.

Lemma skills_match_ratio_antitone_witness :
  ∃ r r', _skills_match_ratio {["python"]} {["python"]} = Ok r ∧
          _skills_match_ratio {["python"; "sql"]} {["python"]} = Ok r' ∧
          (r' ≤ r)%Qc.
Proof.
  apply skills_match_ratio_antitone.
  - intros H. apply (f_equal size) in H. by vm_compute in H.
  - done.
  - apply union_subseteq_l.
Defined.

Lemma search_top_k_prefix_witness :
  ∃ res res',
    search Scenario.toy_encode Scenario.flat_ip_search Scenario.toy_exp
      Scenario.engine "staff engineer" (Some [" Python "]) 18 50 1 false = Ok res ∧
    search Scenario.toy_encode Scenario.flat_ip_search Scenario.toy_exp
      Scenario.engine "staff engineer" (Some [" Python "]) 18 50 5 false = Ok res' ∧
    res = take 1 res' ∧ length res = 1%nat.
Proof.
  eexists.
  edestruct (search_top_k_prefix Scenario.toy_encode Scenario.flat_ip_search
               Scenario.toy_exp Scenario.engine "staff engineer"
               (Some [" Python "]) 18 50 false 1 5) as (res' & Hs' & Heq & _);
    [lia | by vm_compute |].
  exists res'. split; [by vm_compute|]. split; [exact Hs'|].
  split; [exact Heq | done].
Defined.

Lemma search_top_k_not_positive_witness :
  ∃ res full,
    search Scenario.toy_encode Scenario.flat_ip_search Scenario.toy_exp
      Scenario.engine "staff engineer" (Some [" Python "]) 18 50 (-1) false = Ok res ∧
    (∀ k', Z.of_nat (length full) ≤ k' →
       search Scenario.toy_encode Scenario.flat_ip_search Scenario.toy_exp
         Scenario.engine "staff engineer" (Some [" Python "]) 18 50 k' false
       = Ok full) ∧
    res = take (length full - 1) full.
Proof.
  edestruct (search_top_k_not_positive Scenario.toy_encode Scenario.flat_ip_search
               Scenario.toy_exp Scenario.engine "staff engineer"
               (Some [" Python "]) 18 50 false (-1)) as (full & Hfull & _ & Hcut);
    [lia | by vm_compute |].
  eexists _, full. split; [by vm_compute|].
  split; [exact Hfull | exact (Hcut ltac:(lia))].
Defined.

Lemma search_inverted_range_witness :
  search Scenario.toy_encode Scenario.flat_ip_search Scenario.toy_exp
    Scenario.engine "staff engineer" None 50 18 5 false = Ok [].
Proof.
  destruct (search Scenario.toy_encode Scenario.flat_ip_search Scenario.toy_exp
              Scenario.engine "staff engineer" None 50 18 5 false)
    as [res|e] eqn:Hs; [|by vm_compute in Hs].
  f_equal. eapply search_inverted_range; [|exact Hs]. lia.
Defined.

Lemma score_range_witness :
  ∃ res, Scenario.run false = Ok res ∧ res ≠ [] ∧
         ∀ c, c ∈ res → (Q2Qc (-0.3)%Q < score c ≤ 1)%Qc.
Proof.
  eexists. split; [by vm_compute|]. split; [done|].
  edestruct (score_range Scenario.toy_encode Scenario.flat_ip_search
               Scenario.toy_exp Scenario.engine "staff engineer"
               (Some [" Python "]) 18 50 5 false) as [_ Hrange];
    [by vm_compute|].
  apply Hrange. apply Forall_forall. intros p Hp.
  vm_compute in Hp.
  repeat (apply elem_of_cons in Hp as [-> | Hp];
          [first [ by intros _; vm_compute | by intros [] ]|]).
  by apply elem_of_nil in Hp.
Defined.

Lemma justification_text_witness :
  ∃ res, Scenario.run false = Ok res ∧ res ≠ [] ∧
         ∀ c, c ∈ res →
           ∃ sim, justification c =
                  "Role sim " +:+ Py.fmt2 sim
                    +:+ "; all required skills present; age score 1.00".
Proof.
  eexists. split; [by vm_compute|]. split; [done|]. intros c Hc.
  edestruct (justification_text Scenario.toy_encode Scenario.flat_ip_search
               Scenario.toy_exp Scenario.engine "staff engineer"
               (Some [" Python "]) 18 50 5 false) as (idx & sim & _ & Hj);
    [by vm_compute | exact Hc |].
  exists sim. rewrite Hj. by rewrite decide_False by (by vm_compute).
Defined.

Lemma skills_listed_ascending_witness :
  ∃ res, Scenario.run false = Ok res ∧ res ≠ [] ∧
         ∀ c, c ∈ res → NoDup (skills c).
Proof.
  eexists. split; [by vm_compute|]. split; [done|]. intros c Hc.
  edestruct (skills_listed_ascending Scenario.toy_encode Scenario.flat_ip_search
               Scenario.toy_exp Scenario.engine "staff engineer"
               (Some [" Python "]) 18 50 5 false) as [_ Hnd];
    [by vm_compute | exact Hc | exact Hnd].
Defined.


Lemma fillers_skipped_witness :
  ∃ res, Scenario.run false = Ok res ∧ (length res ≤ 3)%nat.
Proof.
  eexists. split; [by vm_compute|].
  edestruct (fillers_skipped Scenario.toy_encode Scenario.flat_ip_search
               Scenario.toy_exp Scenario.engine "staff engineer"
               (Some [" Python "]) 18 50 5 false) as [Hlen _];
    [by vm_compute|].
  etrans; [exact Hlen|]. by vm_compute.
Defined.

Lemma comma_skill_matches_nothing_witness :
  search Scenario.toy_encode Scenario.flat_ip_search Scenario.toy_exp
    Scenario.engine "staff engineer" (Some ["python,sql"]) 18 50 5 false = Ok [].
Proof.
  destruct (search Scenario.toy_encode Scenario.flat_ip_search Scenario.toy_exp
              Scenario.engine "staff engineer" (Some ["python,sql"]) 18 50 5 false)
    as [res|e] eqn:Hs; [|by vm_compute in Hs].
  f_equal.
  eapply (comma_skill_matches_nothing Scenario.toy_encode Scenario.flat_ip_search
            Scenario.toy_exp Scenario.engine "staff engineer"
            (Some ["python,sql"]) 18 50 5 false Scenario.sheet "python,sql");
    [exact scenario_init | by vm_compute | done | exact Hs].
Defined.

(** The label 1 of the scenario's pool is a row of its frame. *)
Lemma built_engine_labels_are_rows_witness :
  ∃ row, iloc (_df Scenario.engine) 1 = Ok row.
Proof.
  edestruct (built_engine_labels_are_rows Scenario.toy_encode
               Scenario.flat_ip_search Scenario.engine "staff engineer"
               Scenario.sheet) as (_ & _ & _ & Hrows);
    [exact scenario_init | apply flat_ip_search_contract |].
  assert (∃ sim, (1, sim) ∈ raw_pool Scenario.toy_encode Scenario.flat_ip_search
                              Scenario.engine "staff engineer") as [sim Hsim].
  { eexists. apply list_elem_of_lookup. exists 1%nat. by vm_compute. }
  destruct (Hrows 1 sim Hsim) as (_ & row & _ & Hrow); [done|]. by exists row.
Defined.

Lemma search_route_response_witness :
  ∃ results,
    Service.search_route Scenario.toy_encode Scenario.flat_ip_search
      Scenario.toy_exp ServiceScenario.registry ServiceScenario.request =
      Service.Response 200 results ∧
    results ≠ [] ∧ Z.of_nat (length results) ≤ 5 ∧
    ∀ c, c ∈ results → 18 ≤ age c ≤ 50.
Proof.
  eexists. split; [by vm_compute|]. split; [done|].
  edestruct (search_route_response Scenario.toy_encode Scenario.flat_ip_search
               Scenario.toy_exp ServiceScenario.registry ServiceScenario.request)
    as (_ & _ & _ & [Hlen _] & Hages);
    [unfold Service.valid; simpl; lia | by vm_compute |].
  split; [exact Hlen|]. intros c Hc. by destruct (Hages c Hc).
Defined.

Lemma upload_registers_witness :
  ∃ ENGINES',
    Service.upload_dataset Scenario.toy_encode ∅ ServiceScenario.upload
      ServiceScenario.uuid_hex = (Service.Response 201 "0f1e2d3c", ENGINES') ∧
    ENGINES' !! "0f1e2d3c" = Some Scenario.engine.
Proof.
  destruct (Service.upload_dataset Scenario.toy_encode ∅ ServiceScenario.upload
              ServiceScenario.uuid_hex) as [reply ENGINES'] eqn:Hup.
  assert (reply = Service.Response 201 "0f1e2d3c") as ->.
  { apply (f_equal fst) in Hup. by vm_compute in Hup. }
  exists ENGINES'. split; [done|].
  destruct (upload_registers Scenario.toy_encode Scenario.flat_ip_search
              Scenario.toy_exp _ _ _ _ _ _ Hup)
    as (_ & _ & (sheet & engine & Hsheet & Hinit & Hl) & _).
  rewrite Hl. f_equal. injection Hsheet as <-.
  rewrite scenario_init in Hinit. by injection Hinit.
Defined.

Lemma upload_refused_witness :
  Service.upload_dataset Scenario.toy_encode ServiceScenario.registry
    ServiceScenario.notes ServiceScenario.uuid_hex =
  (Service.HTTPException 415 Service.NotExcel, ServiceScenario.registry).
Proof.
  destruct (Service.upload_dataset Scenario.toy_encode ServiceScenario.registry
              ServiceScenario.notes ServiceScenario.uuid_hex)
    as [reply ENGINES'] eqn:Hup.
  destruct (upload_refused Scenario.toy_encode _ _ _ _ _ Hup)
    as (Hsame & Hname & _).
  assert (reply = Service.HTTPException 415 Service.NotExcel) as ->.
  { apply Hname. split; reflexivity. }
  f_equal. apply Hsame. intros status_code id H. discriminate H.
Defined.

Lemma service_no_index_error_witness :
  Service.search_route Scenario.toy_encode Scenario.flat_ip_search
    Scenario.toy_exp ServiceScenario.registry ServiceScenario.request ≠
  Service.Escaped IndexError.
Proof.
  apply (service_no_index_error Scenario.toy_encode Scenario.flat_ip_search
           Scenario.toy_exp ServiceScenario.registry).
  - intros id engine Hl. unfold ServiceScenario.registry in Hl.
    apply lookup_singleton_Some in Hl as [_ <-]. by vm_compute.
  - exact flat_ip_search_contract.
Defined.
